(** * generate-gherkin.py: the Gherkin generator, embedded and verified

    A shallow embedding of [generate-gherkin.py]: Python strings as lists of
    code points, the three regular expressions of [extract_gherkin_code] as
    terms run by a small backtracking matcher with the priorities of
    Python's [re] module, and the file-processing pipeline as a state and
    exception monad over an explicit world (output files, console, requests
    sent to the completion service). *)

From Stdlib Require Import Strings.String Strings.Ascii NArith ZArith Lia DecimalString.
From stdpp Require Import base list gmap numbers.

Local Open Scope N_scope.

(** ** Python values of type [str] *)

(** A Python [str] is a sequence of Unicode code points. *)
Abbreviation char := N (only parsing).
Abbreviation str := (list N) (only parsing).

(** ASCII literals of the source, as code points. *)
Definition lit (s : string) : str := map N_of_ascii (list_ascii_of_string s).

(** [Py_UNICODE_ISSPACE]: the characters removed by [str.strip()] and matched
    by [\s] in a [str] pattern. *)
Definition isspace (c : char) : bool :=
  ((0x09 <=? c) && (c <=? 0x0D)) || ((0x1C <=? c) && (c <=? 0x20))
  || (c =? 0x85) || (c =? 0xA0) || (c =? 0x1680)
  || ((0x2000 <=? c) && (c <=? 0x200A))
  || (c =? 0x2028) || (c =? 0x2029) || (c =? 0x202F) || (c =? 0x205F)
  || (c =? 0x3000).

Fixpoint drop_while {A} (p : A -> bool) (l : list A) : list A :=
  match l with
  | [] => []
  | x :: l' => if p x then drop_while p l' else l
  end.

Definition lstrip (s : str) : str := drop_while isspace s.
Definition rstrip (s : str) : str := reverse (drop_while isspace (reverse s)).

(** [s.strip()] *)
Definition strip (s : str) : str := rstrip (lstrip s).

(** [s.startswith(sub)] *)
Fixpoint startswith (sub s : str) : bool :=
  match sub, s with
  | [], _ => true
  | a :: sub', b :: s' => (a =? b) && startswith sub' s'
  | _ :: _, [] => false
  end.

(** [s.find(sub)]: the lowest index at which [sub] occurs in [s]. *)
Fixpoint str_find (sub s : str) : option nat :=
  if startswith sub s then Some 0%nat
  else match s with
       | [] => None
       | _ :: s' => S <$> str_find sub s'
       end.

(** [sub in s] *)
Definition str_contains (sub s : str) : bool :=
  match str_find sub s with Some _ => true | None => false end.

(** [sep.join(parts)] *)
Fixpoint join (sep : str) (parts : list str) : str :=
  match parts with
  | [] => []
  | [p] => p
  | p :: ps => p ++ sep ++ join sep ps
  end.

(** [s[b:e]] for [0 <= b <= e]. *)
Definition slice (s : str) (b e : nat) : str := take (e - b) (drop b s).

(** ** Exceptions and results *)

(** The exceptions that can arise in the program, all instances of
    [Exception]. [APIError] stands for whatever the completion client raises
    (network, authentication, ...), with its message. *)
Inductive exn :=
| AttributeError | TypeError | ValueError | IndexError
| JSONDecodeError | OSError | UnicodeEncodeError
| APIError (msg : str).

Inductive result (A : Type) :=
| Ok (a : A)
| Raise (e : exn).
Arguments Ok {A} a.
Arguments Raise {A} e.

(** [s.index(sub)]: like [find], but raises [ValueError] when absent. *)
Definition str_index (sub s : str) : result nat :=
  match str_find sub s with
  | Some i => Ok i
  | None => Raise ValueError
  end.

(** ** Regular expressions ([re]) *)

Module Re.

(** Character classes. *)
Inductive cset :=
| CSpace                 (* \s *)
| CNotSpace              (* \S *)
| CDot                   (* .  (no DOTALL: anything but a newline) *)
| CUnion (a b : cset).   (* [ab] *)

Fixpoint in_cset (cs : cset) (c : char) : bool :=
  match cs with
  | CSpace => isspace c
  | CNotSpace => negb (isspace c)
  | CDot => negb (c =? 10)
  | CUnion a b => in_cset a c || in_cset b c
  end.

(** The fragment of pattern syntax used by the program. Repetition is only
    ever applied to a character class. *)
Inductive regex :=
| Bol                      (* ^  (no MULTILINE) *)
| Chr (c : char)           (* a literal character *)
| Eps
| Cat (r1 r2 : regex)
| Opt (r : regex)          (* (?:r)?  greedy *)
| Star (cs : cset)         (* cs*     greedy *)
| StarLazy (cs : cset)     (* cs*?    lazy *)
| Group (r : regex).       (* (r), capturing group 1 *)

Definition re_seq (rs : list regex) : regex := foldr Cat Eps rs.
Definition re_str (s : str) : regex := re_seq (Chr <$> s).

(** Case-insensitive matching of a literal, as [sre_compile] arranges it for
    a [str] pattern under [re.IGNORECASE]: a cased literal [p] is replaced by
    [lo = lower(p)] and a subject character [x] matches when [lower(x)] is
    [lo] or one of the other lower-case characters with the same upper case
    ([_ignorecase_fixes]). The literals of the program are ASCII, for which
    the cased characters are the letters.

    [tolower] is the simple lower-case mapping of the Unicode database as far
    as it can be told apart by comparing its result with an ASCII letter,
    U+0131 or U+017F: besides A-Z only U+0130 and U+212A map to an ASCII
    letter. *)
Definition tolower (x : char) : char :=
  if (0x41 <=? x) && (x <=? 0x5A) then x + 0x20
  else if x =? 0x130 then 0x69
  else if x =? 0x212A then 0x6B
  else x.

Definition iscased (p : char) : bool :=
  ((0x41 <=? p) && (p <=? 0x5A)) || ((0x61 <=? p) && (p <=? 0x7A)).

Definition ignorecase_fixes (lo : char) : list char :=
  if lo =? 0x69 then [0x131]
  else if lo =? 0x73 then [0x17F]
  else [].

Definition chr_match (ignorecase : bool) (p x : char) : bool :=
  if ignorecase && iscased p then
    let lo := tolower p in
    existsb (N.eqb (tolower x)) (lo :: ignorecase_fixes lo)
  else p =? x.

(** A successful match: where it ends and the span of group 1, if set. *)
Definition span := (nat * nat)%type.
Definition matched := (nat * option span)%type.
Definition cont := nat -> str -> option span -> option matched.

Section Matcher.
Variable ignorecase : bool.

(** [cs*] followed by [k]: as many characters as possible first. *)
Fixpoint star_greedy (cs : cset) (k : cont) (pos : nat) (s : str)
    (g : option span) : option matched :=
  match s with
  | x :: s' =>
      if in_cset cs x then
        match star_greedy cs k (S pos) s' g with
        | Some res => Some res
        | None => k pos s g
        end
      else k pos s g
  | [] => k pos s g
  end.

(** [cs*?] followed by [k]: as few characters as possible first. *)
Fixpoint star_lazy (cs : cset) (k : cont) (pos : nat) (s : str)
    (g : option span) : option matched :=
  match k pos s g with
  | Some res => Some res
  | None =>
      match s with
      | x :: s' => if in_cset cs x then star_lazy cs k (S pos) s' g else None
      | [] => None
      end
  end.

(** The backtracking matcher, in continuation-passing style: [pos] is the
    index of the remaining subject [s] in the whole string. The first
    success in priority order is returned. *)
Fixpoint run (r : regex) (pos : nat) (s : str) (g : option span)
    (k : cont) : option matched :=
  match r with
  | Bol => if Nat.eqb pos 0 then k pos s g else None
  | Chr p =>
      match s with
      | x :: s' => if chr_match ignorecase p x then k (S pos) s' g else None
      | [] => None
      end
  | Eps => k pos s g
  | Cat r1 r2 => run r1 pos s g (fun pos' s' g' => run r2 pos' s' g' k)
  | Opt r1 =>
      match run r1 pos s g k with
      | Some res => Some res
      | None => k pos s g
      end
  | Star cs => star_greedy cs k pos s g
  | StarLazy cs => star_lazy cs k pos s g
  | Group r1 => run r1 pos s g (fun pos' s' _ => k pos' s' (Some (pos, pos')))
  end.

Definition accept : cont := fun pos _ g => Some (pos, g).

(** A match of [r] starting exactly at [pos]. *)
Definition match_at (r : regex) (pos : nat) (s : str) : option matched :=
  run r pos s None accept.

Record re_match := ReMatch {
  m_start : nat;
  m_end : nat;
  m_group1 : option span
}.

(** [re.search]: the match at the leftmost position that has one. *)
Fixpoint search_from (r : regex) (pos : nat) (s : str) : option re_match :=
  match match_at r pos s with
  | Some (e, g) => Some (ReMatch pos e g)
  | None =>
      match s with
      | [] => None
      | _ :: s' => search_from r (S pos) s'
      end
  end.

Definition search (r : regex) (s : str) : option re_match :=
  search_from r 0 s.

(** [re.sub(r, repl, s)] with a constant replacement: all non-overlapping
    matches, leftmost first. [skip] counts the characters still covered
    by the match just replaced. An empty match inserts [repl] and moves
    on by one character; the patterns of this program never match the
    empty string. *)
Fixpoint sub_from (r : regex) (repl : str) (skip pos : nat) (s : str) : str :=
  match skip with
  | S skip' =>
      match s with
      | [] => []
      | _ :: s' => sub_from r repl skip' (S pos) s'
      end
  | O =>
      match match_at r pos s, s with
      | Some (e, _), [] => repl
      | Some (e, _), x :: s' =>
          if Nat.eqb e pos then repl ++ x :: sub_from r repl 0 (S pos) s'
          else repl ++ sub_from r repl (e - pos - 1) (S pos) s'
      | None, [] => []
      | None, x :: s' => x :: sub_from r repl 0 (S pos) s'
      end
  end.

Definition sub (r : regex) (repl s : str) : str := sub_from r repl 0 0 s.
End Matcher.

(** [m.group(1)]: the text of group 1, [None] if the group did not take
    part in the match. *)
Definition group1 (m : re_match) (s : str) : option str :=
  match m_group1 m with
  | Some (b, e) => Some (slice s b e)
  | None => None
  end.

End Re.
Import Re.

(** ** The text extractor *)

(** [r'```(?:gherkin)?([\s\S]*?)```'] *)
Definition fence : str := lit "```".
Definition code_block_re : regex :=
  re_seq [re_str fence; Opt (re_str (lit "gherkin"));
          Group (StarLazy (CUnion CSpace CNotSpace)); re_str fence].

(** [r'^\s*Certainly!.*?\n'], [r'^\s*Here is.*?\n'], [r'^\s*Below is.*?\n'] *)
Definition preamble_re (phrase : str) : regex :=
  re_seq [Bol; Star CSpace; re_str phrase; StarLazy CDot; Chr 10].
Definition certainly_re : regex := preamble_re (lit "Certainly!").
Definition here_is_re : regex := preamble_re (lit "Here is").
Definition below_is_re : regex := preamble_re (lit "Below is").

Definition Feature : str := lit "Feature:".

Definition extract_gherkin_code (response : str) : result str :=
  (* Try to extract code from markdown code blocks *)
  let code_block_match := search false code_block_re response in
  match code_block_match with
  | Some m =>
      match group1 m response with
      | Some code => Ok (strip code)
      | None => Raise AttributeError
      end
  | None =>
      (* If no code block is found, look for Feature: *)
      if str_contains Feature response then
        match str_index Feature response with
        | Ok i => Ok (strip (drop i response))
        | Raise e => Raise e
        end
      else
        (* If all else fails, remove the known preambles *)
        let response := sub true certainly_re [] response in
        let response := sub true here_is_re [] response in
        let response := sub true below_is_re [] response in
        Ok (strip response)
  end.

#[local] Set Warnings "-register-all".

(** ** JSON values, as [json.load] returns them *)

(** Numbers are integers: floating-point values are outside the model. An
    object keeps its members in file order. *)
Inductive json :=
| JNull
| JBool (b : bool)
| JInt (z : Z)
| JStr (s : str)
| JArr (items : list json)
| JObj (members : list (str * json)).

Fixpoint assoc (key : str) (members : list (str * json)) : option json :=
  match members with
  | [] => None
  | (k, v) :: rest => if bool_decide (k = key) then Some v else assoc key rest
  end.

(** [obj.get(key, default)]; only a [dict] has the method. *)
Definition py_get (obj : json) (key : str) (default : json) : result json :=
  match obj with
  | JObj members => Ok (match assoc key members with Some v => v | None => default end)
  | _ => Raise AttributeError
  end.

(** [iter(v)]: a list yields its items, a dict its keys, a str its
    characters; the other values are not iterable. *)
Definition py_iter (v : json) : result (list json) :=
  match v with
  | JArr items => Ok items
  | JObj members => Ok ((fun kv => JStr (fst kv)) <$> members)
  | JStr s => Ok ((fun c => JStr [c]) <$> s)
  | JNull | JBool _ | JInt _ => Raise TypeError
  end.

(** ** Rendering values as text *)

(** [str(n)] for an [int]. *)
Definition decimal (z : Z) : str := lit (NilZero.string_of_int (Z.to_int z)).

Definition hex_digit (d : N) : char :=
  if d <? 10 then 0x30 + d else 0x61 + (d - 10).

(** [width] lower-case hexadecimal digits of [n], most significant first. *)
Fixpoint hex (width : nat) (n : N) : str :=
  match width with
  | O => []
  | S w => hex w (n / 16) ++ [hex_digit (n mod 16)]
  end.

Definition backslash : char := 0x5C.
Definition dquote : char := 0x22.
Definition squote : char := 0x27.

Section Rendering.
(** [Py_UNICODE_ISPRINTABLE] on the code points above U+007F, a table of
    the Unicode database; [repr] consults it to decide which characters to
    escape. *)
Variable isprintable : char -> bool.

(** [repr(s)] for a [str]. *)
Definition repr_char (quote : char) (c : char) : str :=
  if (c =? quote) || (c =? backslash) then [backslash; c]
  else if c =? 0x09 then lit "\t"
  else if c =? 0x0A then lit "\n"
  else if c =? 0x0D then lit "\r"
  else if (c <? 0x20) || (c =? 0x7F) then lit "\x" ++ hex 2 c
  else if c <? 0x7F then [c]
  else if isprintable c then [c]
  else if c <=? 0xFF then lit "\x" ++ hex 2 c
  else if c <=? 0xFFFF then lit "\u" ++ hex 4 c
  else lit "\U" ++ hex 8 c.

Definition repr_str (s : str) : str :=
  let quote :=
    if bool_decide (squote ∈ s) && negb (bool_decide (dquote ∈ s))
    then dquote else squote in
  [quote] ++ concat (repr_char quote <$> s) ++ [quote].

(** [repr(v)] *)
Fixpoint py_repr (v : json) : str :=
  match v with
  | JNull => lit "None"
  | JBool true => lit "True"
  | JBool false => lit "False"
  | JInt z => decimal z
  | JStr s => repr_str s
  | JArr items => lit "[" ++ join (lit ", ") (map py_repr items) ++ lit "]"
  | JObj members =>
      lit "{"
      ++ join (lit ", ")
           (map (fun kv => repr_str (fst kv) ++ lit ": " ++ py_repr (snd kv))
              members)
      ++ lit "}"
  end.

(** [str(v)], which is what [f"{v}"] puts into the text. *)
Definition py_str (v : json) : str :=
  match v with
  | JStr s => s
  | _ => py_repr v
  end.
End Rendering.

(** [json.dumps(v, indent=2)], with the default [ensure_ascii=True]. *)
Definition json_escape_char (c : char) : str :=
if c =? dquote then [backslash; dquote]
else if c =? backslash then [backslash; backslash]
else if c =? 0x0A then lit "\n"
else if c =? 0x0D then lit "\r"
else if c =? 0x09 then lit "\t"
else if c =? 0x08 then lit "\b"
else if c =? 0x0C then lit "\f"
else if (0x20 <=? c) && (c <=? 0x7E) then [c]
else if c <? 0x10000 then lit "\u" ++ hex 4 c
else
  let n := c - 0x10000 in
  lit "\u" ++ hex 4 (N.lor 0xD800 (N.land (N.shiftr n 10) 0x3FF))
  ++ lit "\u" ++ hex 4 (N.lor 0xDC00 (N.land n 0x3FF)).

Definition json_quote (s : str) : str :=
[dquote] ++ concat (json_escape_char <$> s) ++ [dquote].

Definition newline_indent (level : nat) : str :=
10 :: replicate (2 * level) 0x20.

Fixpoint dumps (level : nat) (v : json) : str :=
match v with
| JNull => lit "null"
| JBool true => lit "true"
| JBool false => lit "false"
| JInt z => decimal z
| JStr s => json_quote s
| JArr [] => lit "[]"
| JArr items =>
    lit "[" ++ newline_indent (S level)
    ++ join (lit "," ++ newline_indent (S level)) (map (dumps (S level)) items)
    ++ newline_indent level ++ lit "]"
| JObj [] => lit "{}"
| JObj members =>
    lit "{" ++ newline_indent (S level)
    ++ join (lit "," ++ newline_indent (S level))
         (map (fun kv => json_quote (fst kv) ++ lit ": " ++ dumps (S level) (snd kv))
            members)
    ++ newline_indent level ++ lit "}"
end.

Definition json_dumps_indent2 (v : json) : str := dumps 0 v.

(** ** Computations that may raise *)

Definition result_bind {A B} (r : result A) (f : A -> result B) : result B :=
match r with
| Ok a => f a
| Raise e => Raise e
end.

Declare Scope result_scope.
Delimit Scope result_scope with result.
Notation "x <- r ;; k" := (result_bind r (fun x => k))
(at level 100, r at next level, right associativity) : result_scope.

(** A list comprehension whose element expression may raise: elements are
  evaluated in order and the first exception ends the evaluation. *)
Fixpoint comprehension {A B} (f : A -> result B) (xs : list A) : result (list B) :=
match xs with
| [] => Ok []
| x :: xs' =>
    (y <- f x ;; ys <- comprehension f xs' ;; Ok (y :: ys))%result
end.

(** [enumerate(xs)], counting from [start]. *)
Fixpoint enumerate_from {A} (start : nat) (xs : list A) : list (nat * A) :=
match xs with
| [] => []
| x :: xs' => (start, x) :: enumerate_from (S start) xs'
end.
Definition enumerate {A} (xs : list A) : list (nat * A) := enumerate_from 0 xs.

(** ** The prompt builder *)

Definition newline : str := [10].

(** The text of the f-string returned by [build_prompt], as a function of
  its four replacement fields. *)
Definition prompt_text (test_description test_code steps_summary schema : str) : str :=
newline
++ lit "      Generate Gherkin code for the following multi-step API compliance test:" ++ newline
++ newline
++ lit "      Test Description: " ++ test_description ++ newline
++ lit "      Test Code: " ++ test_code ++ newline
++ newline
++ lit "      Multi-Step Workflow:" ++ newline
++ lit "      " ++ steps_summary ++ newline
++ newline
++ lit "      Expected Response Schema: " ++ schema ++ newline
++ newline
++ lit "      IMPORTANT:" ++ newline
++ lit "      - Respond ONLY with the raw Gherkin code." ++ newline
++ lit "      - No explanations, markdown formatting, or code blocks." ++ newline
++ lit "      - Start directly with 'Feature:'" ++ newline
++ lit "      - Include Scenario with Given, When, Then steps that describe this multi-step compliance test workflow" ++ newline
++ lit "      - Focus on the business logic and compliance validation, not individual API details" ++ newline
++ lit "    ".

Section Prompt.
Variable isprintable : char -> bool.

Local Abbreviation py_str := (py_str isprintable).

(** The element expression of the comprehension in [build_prompt]:
    [f"Step {call.get('step', idx+1)}: {call.get('name', 'API Call')}
       ({call.get('method', 'GET')} {call.get('api_url', '')})"] *)
Definition step_line (entry : nat * json) : result str :=
  let '(idx, call) := entry in
  (step <- py_get call (lit "step") (JInt (Z.of_nat (idx + 1))) ;;
   name <- py_get call (lit "name") (JStr (lit "API Call")) ;;
   method <- py_get call (lit "method") (JStr (lit "GET")) ;;
   api_url <- py_get call (lit "api_url") (JStr []) ;;
   Ok (lit "Step " ++ py_str step ++ lit ": " ++ py_str name
       ++ lit " (" ++ py_str method ++ lit " " ++ py_str api_url ++ lit ")"))%result.

Definition build_prompt (test_data : json) : result str :=
  (api_calls <- py_get test_data (lit "api_calls") (JArr []) ;;
   (* Build summary of multi-step workflow *)
   calls <- py_iter api_calls ;;
   lines <- comprehension step_line (enumerate calls) ;;
   let steps_summary := join (newline ++ lit "      ") lines in
   response_schema <- py_get test_data (lit "response_schema") (JObj []) ;;
   test_description <- py_get test_data (lit "test_description") (JStr []) ;;
   test_code <- py_get test_data (lit "test_code") (JStr []) ;;
   Ok (prompt_text (py_str test_description) (py_str test_code)
         steps_summary (json_dumps_indent2 response_schema)))%result.
End Prompt.

(** ** The world the script runs in *)

(** A path is kept as pathlib keeps it on POSIX, by its [parts]: the names
    in order, after the root [/] or [//] when the path is absolute. *)
Abbreviation path := (list (list N)).

(** [s.split(sep)] for a separator of one character. *)
Fixpoint split_on (sep : N) (s : str) : list str :=
  match s with
  | [] => [[]]
  | c :: s' =>
      if c =? sep then [] :: split_on sep s'
      else match split_on sep s' with
           | [] => [[c]]
           | x :: xs => (c :: x) :: xs
           end
  end.

(** The root of a path given as text: [//] for exactly two leading slashes,
    [/] for one and for three or more, none for a relative path. *)
Definition root_of (operand : str) : option str :=
  if startswith (lit "///") operand then Some (lit "/")
  else if startswith (lit "//") operand then Some (lit "//")
  else if startswith (lit "/") operand then Some (lit "/")
  else None.

(** [x and x != '.'], the test a name of a path has to pass. *)
Definition is_name (x : str) : bool :=
  match x with
  | [] => false
  | [c] => negb (c =? 46)
  | _ => true
  end.

(** The names of a path given as text: empty names and [.] are dropped. *)
Definition names_of (operand : str) : list str :=
  List.filter is_name (split_on 47 operand).

(** [p / operand]: an absolute operand replaces [p]. *)
Definition joinpath (p : path) (operand : str) : path :=
  match root_of operand with
  | Some root => root :: names_of operand
  | None => p ++ names_of operand
  end.

(** One call of [print]. *)
Inductive event :=
| StartingBanner
| BaseDirectory (base_dir : path)
| MissingConfiguration
| CopyEnvExample
| ClientInitialized
| ProcessingPlatform (platform : str)
| PlatformNotFound (platform : str)
| NoJsonFiles (platform : str)
| Processing (test_code : str)
| ErrorGenerating (e : exn)
| Created (platform : str) (gherkin_file : path)
| FailedToGenerate (test_code : str)
| ErrorProcessing (file_name : str) (e : exn)
| Processed (count : nat) (platform : str)
| Rule
| GenerationComplete.

(** A chat-completion request; the temperature 0.7 is kept as a ratio. *)
Record request := Request {
  req_model : option str;
  req_messages : list (str * str);
  req_temperature : Z * Z
}.

(** What changes while the script runs: the text of the files, under the
    path they were opened with, the lines it has printed and the requests
    it has sent. *)
Record world := World {
  files : gmap path str;
  console : list event;
  requests : list request
}.

(** The completion service behind [openai_client]: given the number of
    requests already sent and the request, [create] raises or returns
    [message.content] of each choice of the response. *)
Definition completion_client : Type :=
  nat -> request -> result (list (option str)).

(** An input file as the walker sees it: its name, its stem and what
    [open] followed by [json.load] gives. *)
Record input_file := InputFile {
  file_name : str;
  stem : str;
  load : result json
}.

(** A platform directory: whether [mkdir] of its output directory works,
    and its [*.json] files in listing order. *)
Record platform_dir := PlatformDir {
  mkdir : result unit;
  json_files : list input_file
}.

(** What the script finds on disk: the platform directories that exist,
    the paths that can be opened for writing, and the characters above
    U+007F that the encoding of the locale, which [open] uses for a text
    file, can encode. *)
Record disk := Disk {
  platform_path : str -> option platform_dir;
  can_write : path -> bool;
  can_encode : N -> bool
}.

(** [text.encode(encoding)] does not raise. *)
Definition encodable (d : disk) (text : str) : bool :=
  forallb (fun c => (c <? 0x80) || can_encode d c) text.

(** The module-level configuration, read from the process environment by
    [os.getenv]: [None] when a variable is not set. *)
Record config := Config {
  AZURE_OPENAI_API_VERSION : option str;
  AZURE_OPENAI_ENDPOINT : option str;
  AZURE_OPENAI_API_MODEL : option str;
  AZURE_OPENAI_API_KEY : option str
}.

(** ** Statements: state, exceptions and [exit] *)

(** How a statement ends. [Exit] is [SystemExit], which [except Exception]
    does not catch. *)
Inductive outcome (A : Type) :=
| Return (a : A)
| Raised (e : exn)
| Exit (status : Z).
Arguments Return {A} a.
Arguments Raised {A} e.
Arguments Exit {A} status.

Definition io (A : Type) : Type := world -> outcome A * world.

Definition io_ret {A} (a : A) : io A := fun w => (Return a, w).

Definition io_bind {A B} (c : io A) (k : A -> io B) : io B :=
  fun w =>
    match c w with
    | (Return a, w') => k a w'
    | (Raised e, w') => (Raised e, w')
    | (Exit n, w') => (Exit n, w')
    end.

Definition lift {A} (r : result A) : io A :=
  fun w => (match r with Ok a => Return a | Raise e => Raised e end, w).

Definition exit (status : Z) : io unit := fun w => (Exit status, w).

(** [try: body  except Exception as e: handler(e)] *)
Definition try_except {A} (body : io A) (handler : exn -> io A) : io A :=
  fun w =>
    match body w with
    | (Raised e, w') => handler e w'
    | other => other
    end.

Definition print (e : event) : io unit :=
  fun w => (Return tt, World (files w) (console w ++ [e]) (requests w)).

(** [with open(p, 'w') as f: f.write(content)]: [open] truncates the file,
    and [write] encodes the whole text before it stores any of it. A device
    that fails while the encoded text is stored is not part of the model. *)
Definition write_file (d : disk) (p : path) (content : str) : io unit :=
  fun w =>
    if can_write d p
    then if encodable d content
         then (Return tt, World (<[p := content]> (files w)) (console w) (requests w))
         else (Raised UnicodeEncodeError,
               World (<[p := []]> (files w)) (console w) (requests w))
    else (Raised OSError, w).

(** [openai_client.chat.completions.create(...)] *)
Definition create (openai_client : completion_client) (req : request)
    : io (list (option str)) :=
  fun w =>
    (match openai_client (length (requests w)) req with
     | Ok choices => Return choices
     | Raise e => Raised e
     end,
     World (files w) (console w) (requests w ++ [req])).

Declare Scope io_scope.
Delimit Scope io_scope with io.
Notation "x <- c ;; k" := (io_bind c (fun x => k))
  (at level 100, c at next level, right associativity) : io_scope.
Notation "c ;; k" := (io_bind c (fun _ => k))
  (at level 100, right associativity) : io_scope.

(** [for x in xs: body(x)] *)
Fixpoint for_each {A} (xs : list A) (body : A -> io unit) : io unit :=
  match xs with
  | [] => io_ret tt
  | x :: xs' => (body x ;; for_each xs' body)%io
  end.

Section Pipeline.
Variable isprintable : char -> bool.

Local Abbreviation py_str := (py_str isprintable).
Local Abbreviation build_prompt := (build_prompt isprintable).

(** ** The completion client *)

Definition system_message : str :=
  lit "You are a helpful assistant that generates Gherkin code for API testing. Respond ONLY with the Gherkin code, no explanations, no markdown formatting, just the raw Gherkin code.".

Definition fallback : str := lit "Failed to generate Gherkin code".

Definition completion_request (cfg : config) (prompt : str) : request :=
  Request (AZURE_OPENAI_API_MODEL cfg)
    [(lit "system", system_message); (lit "user", prompt)]
    (7, 10)%Z.

(** [response.choices[0].message.content] *)
Definition first_content (choices : list (option str)) : result (option str) :=
  match choices with
  | content :: _ => Ok content
  | [] => Raise IndexError
  end.

(** [content or 'Failed to generate Gherkin code'] *)
Definition or_fallback (content : option str) : str :=
  match content with
  | Some (c :: s) => c :: s
  | Some [] | None => fallback
  end.

Definition generate_gherkin_with_llm (cfg : config) (test_data : json)
    (openai_client : completion_client) : io (option str) :=
  try_except
    (prompt <- lift (build_prompt test_data) ;;
     choices <- create openai_client (completion_request cfg prompt) ;;
     content <- lift (first_content choices) ;;
     let generated_code := or_fallback content in
     (* Extract just the Gherkin code *)
     gherkin_code <- lift (extract_gherkin_code generated_code) ;;
     io_ret (Some gherkin_code))%io
    (fun e => (print (ErrorGenerating e) ;; io_ret None)%io).

(** ** The platform walker *)

(** The body of the loop over [json_files]. *)
Definition process_file (cfg : config) (d : disk) (platform : str)
    (gherkin_dir : path) (openai_client : completion_client)
    (json_file : input_file) : io unit :=
  try_except
    ((* Read test definition *)
     test_data <- lift (load json_file) ;;
     test_code <- lift (py_get test_data (lit "test_code") (JStr (stem json_file))) ;;
     print (Processing (py_str test_code)) ;;
     (* Generate Gherkin using LLM *)
     gherkin_content <- generate_gherkin_with_llm cfg test_data openai_client ;;
     match gherkin_content with
     | Some (c :: s) =>
         let gherkin_file := joinpath gherkin_dir (py_str test_code ++ lit ".gherkin") in
         write_file d gherkin_file (c :: s) ;;
         print (Created platform gherkin_file)
     | Some [] | None =>
         print (FailedToGenerate (py_str test_code))
     end)%io
    (fun e => print (ErrorProcessing (file_name json_file) e)).

Definition generate_gherkin_for_platform (cfg : config) (d : disk)
    (base_dir : path) (platform : str) (openai_client : completion_client)
    : io unit :=
  match platform_path d platform with
  | None => print (PlatformNotFound platform)
  | Some dir =>
      (* Create gherkin subdirectory *)
      let gherkin_dir := joinpath (joinpath base_dir (lit "gherkin")) platform in
      (lift (mkdir dir) ;;
       (* Process each JSON file *)
       match json_files dir with
       | [] => print (NoJsonFiles platform)
       | files =>
           for_each files (process_file cfg d platform gherkin_dir openai_client) ;;
           print (Processed (length files) platform)
       end)%io
  end.

(** ** The entry point *)

(** [all(values)] over values that are [None] or a [str]. *)
Definition all_set (values : list (option str)) : bool :=
  forallb (fun v => match v with Some (_ :: _) => true | _ => false end) values.

Definition script (cfg : config) (d : disk) (base_dir : path)
    (service : completion_client) : io unit :=
  (print StartingBanner ;;
   print (BaseDirectory base_dir) ;;
   (* Validate environment variables *)
   (if negb (all_set [AZURE_OPENAI_API_KEY cfg; AZURE_OPENAI_ENDPOINT cfg;
                      AZURE_OPENAI_API_VERSION cfg; AZURE_OPENAI_API_MODEL cfg])
    then print MissingConfiguration ;; print CopyEnvExample ;; exit 1
    else io_ret tt) ;;
   (* Initialize Azure OpenAI client *)
   let openai_client := service in
   print ClientInitialized ;;
   (* Process each platform *)
   for_each [lit "common"; lit "azure"; lit "aws"]
     (fun platform =>
        print (ProcessingPlatform platform) ;;
        generate_gherkin_for_platform cfg d base_dir platform openai_client) ;;
   print Rule ;;
   print GenerationComplete ;;
   print Rule)%io.

(** Running the script: the exit status of the process and the world it
    leaves. An uncaught exception ends the process with status 1. *)
Definition main (cfg : config) (d : disk) (base_dir : path)
    (service : completion_client) (w : world) : Z * world :=
  match script cfg d base_dir service w with
  | (Return _, w') => (0%Z, w')
  | (Raised _, w') => (1%Z, w')
  | (Exit status, w') => (status, w')
  end.
End Pipeline.

(** ** Vocabulary of the specification *)

(** [sub] occurs in [s] at index [i]. *)
Definition occurs_at (sub s : str) (i : nat) : Prop :=
  exists a b, s = a ++ sub ++ b /\ length a = i.

(** The first occurrence of [sub] in [s] is at index [i]. *)
Definition first_at (sub s : str) (i : nat) : Prop :=
  occurs_at sub s i /\ forall j, occurs_at sub s j -> (i <= j)%nat.

Definition contains (sub s : str) : Prop := exists i, occurs_at sub s i.

(** A block delimited by triple backticks: an opening fence and, after it,
    a closing one. A block tagged [gherkin] is one whose text starts with
    that word. *)
Definition has_fenced_block (s : str) : Prop :=
  exists a body b, s = a ++ fence ++ body ++ fence ++ b.

(** No white space at either end. *)
Definition is_trimmed (s : str) : bool :=
  match head s, head (reverse s) with
  | Some a, Some b => negb (isspace a) && negb (isspace b)
  | _, _ => true
  end.

(** [x] is the character [p] up to case: [p] itself; the other case of an
    ASCII letter; and for the letters i, k and s the further code points
    that Unicode folds to them (U+0130 and U+0131, U+212A, U+017F). This is
    written out character by character and owes nothing to the matcher. *)
Definition same_letter (p x : N) : Prop :=
  x = p
  \/ (0x41 <= p <= 0x5A /\ x = p + 0x20)
  \/ (0x61 <= p <= 0x7A /\ x + 0x20 = p)
  \/ ((p = 0x49 \/ p = 0x69) /\ (x = 0x130 \/ x = 0x131))
  \/ ((p = 0x4B \/ p = 0x6B) /\ x = 0x212A)
  \/ ((p = 0x53 \/ p = 0x73) /\ x = 0x17F).

(** [text] is [phrase] up to the case of its letters. *)
Definition same_ignoring_case (phrase text : str) : Prop :=
  Forall2 same_letter phrase text.

(** [out] is [s] without the white space at its two ends: [s] is [out]
    between two runs of white space, and [out] neither starts nor ends with
    white space. *)
Definition trimmed_core (s out : str) : Prop :=
  exists left right,
    s = left ++ out ++ right
    /\ forallb isspace left = true
    /\ forallb isspace right = true
    /\ is_trimmed out = true.

(** The first fenced block of [response]: [pre] is the text before the
    first fence, [tag] is [gherkin] when the text after that fence starts
    with it and empty otherwise, [body] runs up to the next fence and
    [post] is what follows that fence. *)
Definition first_block (response pre tag body post : str) : Prop :=
  response = pre ++ fence ++ tag ++ body ++ fence ++ post
  /\ first_at fence response (length pre)
  /\ (tag = lit "gherkin" \/ (tag = [] /\ ~ exists b, body = lit "gherkin" ++ b))
  /\ first_at fence (body ++ fence ++ post) (length body).

(** [s] starts with a line matching [phrase...]: white space, the phrase in
    any case, the rest of the line and its newline; [tail] is what follows
    that newline. *)
Definition leading_line (phrase s tail : str) : Prop :=
  exists ws m rest,
    s = ws ++ m ++ rest ++ newline ++ tail
    /\ forallb isspace ws = true
    /\ same_ignoring_case phrase m
    /\ 10 ∉ rest.

(** [r] is [s] with its leading line matching [phrase...] stripped, up to
    and including the newline, if there is such a line, and [s] itself
    otherwise. *)
Definition stripped_of (phrase s r : str) : Prop :=
  leading_line phrase s r \/ ((forall tail, ~ leading_line phrase s tail) /\ r = s).

(** [s] starts with the literal [l], compared as the matcher compares
    pattern literals. *)
Fixpoint prefix_match (ignorecase : bool) (l s : str) : bool :=
  match l, s with
  | [], _ => true
  | p :: l', x :: s' => chr_match ignorecase p x && prefix_match ignorecase l' s'
  | _ :: _, [] => false
  end.

(** The match of what follows the optional tag, that is the group and the
    closing fence, on the subject [u] at index [p]. *)
Definition block_rest (p : nat) (u : str) : option matched :=
  match str_find fence u with
  | Some j => Some ((p + j + 3)%nat, Some (p, (p + j)%nat))
  | None => None
  end.

(** The number of white-space characters [s] starts with. *)
Fixpoint space_count (s : str) : nat :=
  match s with
  | x :: s' => if isspace x then S (space_count s') else 0%nat
  | [] => 0%nat
  end.

(** Where the leading line matching [phrase...] ends in [s], if [s] starts
    with such a line. *)
Definition preamble_end (phrase s : str) : option nat :=
  let t := lstrip s in
  if prefix_match true phrase t then
    match str_find newline (drop (length phrase) t) with
    | Some j => Some (space_count s + length phrase + j + 1)%nat
    | None => None
    end
  else None.

(** A phrase that starts with a character no white space matches. *)
Definition solid (phrase : str) : Prop :=
  match phrase with
  | p :: _ => forall x, isspace x = true -> chr_match true p x = false
  | [] => False
  end.

(** The value of field [key] of a record, or [default] when the record has
    no such field. *)
Definition get_or (members : list (str * json)) (key : str) (default : json) : json :=
  match assoc key members with
  | Some v => v
  | None => default
  end.

(** The closed examples below are ASCII text, for which [repr] never
    consults the table of printable characters; this stands for it. *)
Definition no_table : N -> bool := fun _ => false.



(** A workflow line as the code renders it, with the defaults of the
    code: the position for [step], [API Call] for [name], [GET] for
    [method] and the empty string for [api_url]. *)
Definition default_step_line (isprintable : N -> bool) (position : nat)
    (call : list (str * json)) : str :=
  lit "Step "
  ++ py_str isprintable (get_or call (lit "step") (JInt (Z.of_nat position)))
  ++ lit ": " ++ py_str isprintable (get_or call (lit "name") (JStr (lit "API Call")))
  ++ lit " (" ++ py_str isprintable (get_or call (lit "method") (JStr (lit "GET")))
  ++ lit " " ++ py_str isprintable (get_or call (lit "api_url") (JStr []))
  ++ lit ")".




(** ** A small run, for the closed instances of the theorems *)

Definition sample_config : config :=
  Config (Some (lit "2024-02-01")) (Some (lit "https://example.openai.azure.com"))
    (Some (lit "gpt-4o")) (Some (lit "secret")).

(** The same without the API key. *)
Definition sample_config_no_key : config :=
  Config (Some (lit "2024-02-01")) (Some (lit "https://example.openai.azure.com"))
    (Some (lit "gpt-4o")) None.

Definition sample_record : list (str * json) :=
  [(lit "test_code", JStr (lit "TC001"));
   (lit "api_calls",
    JArr [JObj [(lit "step", JInt 1); (lit "name", JStr (lit "Login"));
                (lit "method", JStr (lit "POST"));
                (lit "api_url", JStr (lit "/login"))]])].

Definition sample_file : input_file :=
  InputFile (lit "TC001.json") (lit "TC001") (Ok (JObj sample_record)).

Definition sample_prompt : str :=
  prompt_text [] (lit "TC001") (lit "Step 1: Login (POST /login)") (lit "{}").

Definition sample_disk : disk :=
  Disk (fun platform =>
          if bool_decide (platform = lit "azure")
          then Some (PlatformDir (Ok tt) [sample_file]) else None)
       (fun _ => true)
       (fun c => negb ((0xD800 <=? c) && (c <=? 0xDFFF))).




Definition empty_world : world := World ∅ [] [].

Definition fenced_service : completion_client :=
  fun _ _ => Ok [Some (lit "```gherkin" ++ newline ++ lit "Feature: Login"
                       ++ newline ++ lit "..." ++ newline ++ lit "```")].

(** ** Vocabulary of the further properties *)

(** [out] is a contiguous part of [s]. *)
Definition part_of (out s : str) : Prop := exists a b, s = a ++ out ++ b.

Definition is_object (v : json) : bool :=
  match v with
  | JObj _ => true
  | _ => false
  end.

(** [p] is [gherkin_dir / f"{name}.gherkin"] for some [name]. *)
Definition output_file (gherkin_dir p : path) : Prop :=
  exists name, p = joinpath gherkin_dir (name ++ lit ".gherkin").

(** The three phrases of the preamble patterns, in the order of the
    source. *)
Definition preambles : list str :=
  [lit "Certainly!"; lit "Here is"; lit "Below is"].

(** The number of [*.json] files of a platform, none when it has no
    directory. *)
Definition file_count (d : disk) (platform : str) : nat :=
  match platform_path d platform with
  | Some dir => length (json_files dir)
  | None => 0%nat
  end.

(** A configuration value that passes [all(...)]: set, and not empty. *)
Definition is_set (v : option str) : Prop :=
  exists c s, v = Some (c :: s).

(** A value [iter] refuses: [None], a boolean or a number. *)
Definition is_scalar (v : json) : bool :=
  match v with
  | JNull | JBool _ | JInt _ => true
  | JStr _ | JArr _ | JObj _ => false
  end.

(** Between [w] and [w'] nothing was written under a path other than
    [gherkin_dir / f"{name}.gherkin"], and each such path that was written
    now holds a trimmed text that the encoding can encode: a generated
    text, or nothing when [write] raised. *)
Definition writes_outputs (d : disk) (gherkin_dir : path) (w w' : world) : Prop :=
  forall p,
    files w' !! p = files w !! p
    \/ (output_file gherkin_dir p
        /\ exists text,
             files w' !! p = Some text
             /\ is_trimmed text = true /\ encodable d text = true).

(** Creating the output directory of [platform] raises [e]. *)
Definition mkdir_fails (d : disk) (platform : str) (e : exn) : Prop :=
  exists dir, platform_path d platform = Some dir /\ mkdir dir = Raise e.

(** The platforms of the script, in the order of the source. *)
Definition platforms : list str := [lit "common"; lit "azure"; lit "aws"].

(** The same for the platforms [ps]: the paths written are
    [base_dir / 'gherkin' / platform / f"{name}.gherkin"] for a platform of
    [ps]. *)
Definition writes_gherkin (d : disk) (base_dir : path) (ps : list str)
    (w w' : world) : Prop :=
  forall p,
    files w' !! p = files w !! p
    \/ ((exists platform name,
           platform ∈ ps
           /\ p = joinpath (joinpath (joinpath base_dir (lit "gherkin")) platform)
                    (name ++ lit ".gherkin"))
        /\ exists text,
             files w' !! p = Some text
             /\ is_trimmed text = true /\ encodable d text = true).

(** * Properties *)

(** Equalities between results that differ in their arithmetic only. *)
Ltac arith_eq := try lia; repeat (f_equal; try lia).

(** ** Strings *)

Lemma startswith_app (sub b : str) : startswith sub (sub ++ b) = true.
Proof.
  induction sub as [|c sub IH]; simpl; [done|].
  by rewrite N.eqb_refl, IH.
Qed.

Lemma startswith_inv (sub s : str) :
  startswith sub s = true -> s = sub ++ drop (length sub) s.
Proof.
  revert s; induction sub as [|c sub IH]; intros [|x s]; simpl; try done.
  intros [Hc Hs]%andb_prop. apply N.eqb_eq in Hc as ->.
  f_equal. by apply IH.
Qed.

Lemma startswith_iff (sub s : str) :
  startswith sub s = true <-> exists b, s = sub ++ b.
Proof.
  split.
  - intros H. eexists. by apply startswith_inv.
  - intros [b ->]. apply startswith_app.
Qed.

Lemma occurs_at_0 (sub s : str) :
  occurs_at sub s 0 <-> startswith sub s = true.
Proof.
  rewrite startswith_iff. split.
  - intros ([|] & b & -> & Hl); [eauto | done].
  - intros [b ->]. by exists [], b.
Qed.

Lemma occurs_at_S (sub : str) (x : N) (s : str) (i : nat) :
  occurs_at sub (x :: s) (S i) <-> occurs_at sub s i.
Proof.
  split.
  - intros ([|y a] & b & Heq & Hl); [done|].
    simpl in *. injection Heq as -> ->. exists a, b. split; [done | lia].
  - intros (a & b & -> & Hl). exists (x :: a), b. split; [done | simpl; lia].
Qed.

Lemma occurs_at_nil (sub : str) (i : nat) :
  occurs_at sub [] i -> i = 0%nat.
Proof. intros ([|] & b & Heq & Hl); [done | discriminate]. Qed.

Lemma str_find_Some (sub s : str) (i : nat) :
  str_find sub s = Some i <-> first_at sub s i.
Proof.
  revert i; induction s as [|x s IH]; intros i.
  - unfold first_at. destruct sub as [|c sub]; simpl.
    + split.
      * intros [= <-]. split; [by apply occurs_at_0 | lia].
      * intros [H _]. apply occurs_at_nil in H. by subst.
    + split; [done|]. intros [H _]. pose proof (occurs_at_nil _ _ H) as ->.
      by apply occurs_at_0 in H.
  - cbn [str_find]. destruct (startswith sub (x :: s)) eqn:Hsw.
    + split.
      * intros [= <-]. split; [by apply occurs_at_0 | lia].
      * intros [_ Hmin]. apply occurs_at_0 in Hsw. apply Hmin in Hsw.
        f_equal; lia.
    + split.
      * destruct (str_find sub s) as [j|] eqn:Hf; [|done].
        intros [= <-]. destruct (proj1 (IH j) eq_refl) as [Ho Hmin]. split.
        -- by apply occurs_at_S.
        -- intros [|k] Hk.
           ++ apply occurs_at_0 in Hk. congruence.
           ++ apply occurs_at_S in Hk. apply Hmin in Hk. lia.
      * intros [Ho Hmin]. destruct i as [|i].
        -- apply occurs_at_0 in Ho. congruence.
        -- apply occurs_at_S in Ho.
           enough (str_find sub s = Some i) as ->; [done|].
           apply IH. split; [done|]. intros j Hj.
           apply (occurs_at_S sub x) in Hj. apply Hmin in Hj. lia.
Qed.

Lemma str_find_None (sub s : str) :
  str_find sub s = None <-> ~ contains sub s.
Proof.
  induction s as [|x s IH].
  - destruct sub as [|c sub]; simpl.
    + split; [done|]. intros H. destruct H. exists 0%nat. by apply occurs_at_0.
    + split; [|done]. intros _ [i H].
      pose proof (occurs_at_nil _ _ H) as ->. by apply occurs_at_0 in H.
  - cbn [str_find]. destruct (startswith sub (x :: s)) eqn:Hsw.
    + split; [done|]. intros H. destruct H. exists 0%nat. by apply occurs_at_0.
    + destruct (str_find sub s) as [j|] eqn:Hf; simpl.
      * split; [done|]. intros H. exfalso. apply H.
        apply str_find_Some in Hf as [Ho _]. exists (S j). by apply occurs_at_S.
      * split; [|done]. intros _ [[|i] H].
        -- apply occurs_at_0 in H. congruence.
        -- apply occurs_at_S in H. apply IH; [done | by exists i].
Qed.

(** ** The matcher on the patterns of the program *)

Lemma prefix_match_startswith (l s : str) :
  prefix_match false l s = startswith l s.
Proof.
  revert s; induction l as [|p l IH]; intros [|x s]; simpl; try done.
  by rewrite IH.
Qed.

Lemma re_str_cons (p : N) (l : str) : re_str (p :: l) = Cat (Chr p) (re_str l).
Proof. done. Qed.

Lemma run_re_str ic (l : str) pos (s : str) g k :
  run ic (re_str l) pos s g k
  = if prefix_match ic l s
    then k (pos + length l)%nat (drop (length l) s) g else None.
Proof.
  revert pos s; induction l as [|p l IH]; intros pos s.
  - simpl. by rewrite Nat.add_0_r.
  - rewrite re_str_cons. cbn [run prefix_match]. destruct s as [|x s]; [done|].
    destruct (chr_match ic p x); [|done]. rewrite IH. cbn [length drop andb].
    by rewrite Nat.add_succ_r.
Qed.

Lemma length_fence : length fence = 3%nat.
Proof. done. Qed.

Lemma in_cset_any (x : N) : in_cset (CUnion CSpace CNotSpace) x = true.
Proof. simpl. by destruct (isspace x). Qed.

(** The lazy repetition in front of the closing fence stops at the first
    fence. *)
Lemma star_lazy_fence (k : cont) (p : nat) g (u : str) (q : nat) :
  (forall pos' s' g',
     k pos' s' g' = run false (re_str fence) pos' s' (Some (p, pos')) accept) ->
  star_lazy (CUnion CSpace CNotSpace) k q u g
  = match str_find fence u with
    | Some j => Some ((q + j + 3)%nat, Some (p, (q + j)%nat))
    | None => None
    end.
Proof.
  intros Hk. revert q; induction u as [|x u IH]; intros q.
  - cbn [star_lazy]. by rewrite Hk.
  - cbn [star_lazy str_find]. rewrite Hk, run_re_str, prefix_match_startswith.
    destruct (startswith fence (x :: u)) eqn:Hsw.
    + unfold accept. rewrite length_fence. arith_eq.
    + rewrite in_cset_any, IH. destruct (str_find fence u) as [j|]; [|done].
      simpl. arith_eq.
Qed.

Lemma match_at_code_block (pos : nat) (s : str) :
  match_at false code_block_re pos s
  = if startswith fence s then
      let t := drop 3 s in
      match (if startswith (lit "gherkin") t
             then block_rest (pos + 3 + 7) (drop 7 t) else None) with
      | Some res => Some res
      | None => block_rest (pos + 3) t
      end
    else None.
Proof.
  unfold match_at, code_block_re.
  change (re_seq ?l) with (foldr Cat Eps l). cbn [foldr].
  cbn [run]. rewrite run_re_str, prefix_match_startswith, length_fence.
  destruct (startswith fence s); [|done].
  cbn [run]. rewrite run_re_str, prefix_match_startswith.
  unfold block_rest.
  erewrite !star_lazy_fence; [done | by intros..].
Qed.

Lemma occurs_at_drop (sub s : str) (i : nat) :
  occurs_at sub s i <-> (i <= length s)%nat /\ startswith sub (drop i s) = true.
Proof.
  revert s; induction i as [|i IH]; intros s.
  - rewrite occurs_at_0, drop_0. intuition lia.
  - destruct s as [|x s].
    + split; [intros H%occurs_at_nil; done | simpl; lia].
    + rewrite occurs_at_S, IH. simpl. intuition lia.
Qed.

Lemma occurs_at_app (sub a b : str) : occurs_at sub (a ++ sub ++ b) (length a).
Proof. by exists a, b. Qed.

Lemma first_at_split (sub s : str) (i : nat) :
  first_at sub s i -> s = take i s ++ sub ++ drop (i + length sub) s.
Proof.
  intros [(a & b & -> & <-) _].
  rewrite take_app_length, <- drop_drop, drop_app_length, drop_app_length. done.
Qed.

(** Searching skips the positions at which the pattern has no match. *)
Lemma search_from_skip ic r (pre rest : str) (pos : nat) :
  (forall i, (i < length pre)%nat ->
     match_at ic r (pos + i) (drop i (pre ++ rest)) = None) ->
  search_from ic r pos (pre ++ rest) = search_from ic r (pos + length pre) rest.
Proof.
  revert pos; induction pre as [|x pre IH]; intros pos H.
  - simpl. by rewrite Nat.add_0_r.
  - cbn [search_from app]. specialize (H 0%nat) as H0.
    rewrite Nat.add_0_r, drop_0 in H0. cbn [app] in H0.
    rewrite H0 by (simpl; lia).
    rewrite IH.
    + simpl. by rewrite Nat.add_succ_r.
    + intros i Hi. specialize (H (S i)). simpl in H.
      rewrite Nat.add_succ_r in H. apply H. lia.
Qed.

Lemma search_from_Some ic r (s : str) (pos : nat) (m : re_match) :
  search_from ic r pos s = Some m ->
  exists a s', s = a ++ s' /\ m_start m = (pos + length a)%nat
    /\ match_at ic r (m_start m) s' = Some (m_end m, m_group1 m).
Proof.
  revert pos; induction s as [|x s IH]; intros pos; cbn [search_from].
  - destruct (match_at ic r pos []) as [[e g]|] eqn:Hm; [|done].
    intros [= <-]. exists [], []. simpl. by rewrite Nat.add_0_r.
  - destruct (match_at ic r pos (x :: s)) as [[e g]|] eqn:Hm.
    + intros [= <-]. exists [], (x :: s). simpl. by rewrite Nat.add_0_r.
    + intros (a & s' & -> & Hst & Hm')%IH. exists (x :: a), s'.
      simpl. rewrite Nat.add_succ_r. done.
Qed.

Lemma block_rest_Some (p : nat) (u : str) res :
  block_rest p u = Some res ->
  exists j, first_at fence u j
    /\ res = ((p + j + 3)%nat, Some (p, (p + j)%nat)).
Proof.
  unfold block_rest. destruct (str_find fence u) as [j|] eqn:Hf; [|done].
  intros [= <-]. exists j. by apply str_find_Some in Hf.
Qed.

(** A match of the code-block pattern is a fenced block. *)
Lemma match_at_code_block_Some (pos : nat) (s : str) res :
  match_at false code_block_re pos s = Some res ->
  exists body b, s = fence ++ body ++ fence ++ b.
Proof.
  rewrite match_at_code_block.
  destruct (startswith fence s) eqn:Hsw; [|done].
  apply startswith_inv in Hsw. rewrite length_fence in Hsw.
  cbn zeta. set (t := drop 3 s) in *.
  destruct (startswith (lit "gherkin") t) eqn:Hg.
  - apply startswith_inv in Hg. change (length (lit "gherkin")) with 7%nat in Hg.
    destruct (block_rest (pos + 3 + 7) (drop 7 t)) as [res'|] eqn:Hb.
    + intros _. apply block_rest_Some in Hb as (j & Hj%first_at_split & _).
      exists (lit "gherkin" ++ take j (drop 7 t)), (drop (j + length fence) (drop 7 t)).
      rewrite Hsw at 1. rewrite Hg at 1. rewrite Hj at 1.
      by rewrite <- !app_assoc.
    + intros (j & Hj%first_at_split & _)%block_rest_Some.
      exists (take j t), (drop (j + length fence) t).
      rewrite Hsw at 1. by rewrite Hj at 1.
  - intros (j & Hj%first_at_split & _)%block_rest_Some.
    exists (take j t), (drop (j + length fence) t).
    rewrite Hsw at 1. by rewrite Hj at 1.
Qed.

Lemma search_code_block_Some (s : str) (m : re_match) :
  search false code_block_re s = Some m -> has_fenced_block s.
Proof.
  intros (a & s' & -> & _ & (body & b & ->)%match_at_code_block_Some)%search_from_Some.
  by exists a, body, b.
Qed.

Lemma no_block_search (s : str) :
  ~ has_fenced_block s -> search false code_block_re s = None.
Proof.
  intros H. destruct (search false code_block_re s) eqn:Hs; [|done].
  by apply search_code_block_Some in Hs.
Qed.

(** The closing fence cannot complete the word [gherkin]. *)
Lemma gherkin_prefix_body (body post : str) :
  startswith (lit "gherkin") (body ++ fence ++ post) = true ->
  startswith (lit "gherkin") body = true.
Proof.
  do 7 (destruct body as [|? body];
        [simpl; intros H; repeat (apply andb_prop in H as [? H]); done|]).
  simpl. intros H. repeat (apply andb_prop in H as [-> H]). done.
Qed.

Lemma search_code_block_at (pre s : str) (m : matched) :
  (forall j, occurs_at fence (pre ++ s) j -> (length pre <= j)%nat) ->
  match_at false code_block_re (length pre) s = Some m ->
  search false code_block_re (pre ++ s) = Some (ReMatch (length pre) m.1 m.2).
Proof.
  intros Hmin Hm. unfold search. rewrite search_from_skip.
  - simpl. destruct s; cbn [search_from]; rewrite Hm; by destruct m.
  - intros i Hi. rewrite match_at_code_block.
    destruct (startswith fence (drop i (pre ++ s))) eqn:Hsw; [|done].
    assert (occurs_at fence (pre ++ s) i) as Ho%Hmin; [|lia].
    apply occurs_at_drop. split; [|done]. rewrite length_app. lia.
Qed.

Lemma slice_middle (a b c : str) :
  slice (a ++ b ++ c) (length a) (length a + length b) = b.
Proof.
  unfold slice. rewrite drop_app_length.
  replace (length a + length b - length a)%nat with (length b) by lia.
  by rewrite take_app_length.
Qed.

(** The first fenced block of a response, and what the extractor makes of
    it. *)
Lemma extract_first_block (pre tag body post : str) :
  first_at fence (pre ++ fence ++ tag ++ body ++ fence ++ post) (length pre) ->
  tag = lit "gherkin" \/ (tag = [] /\ ~ exists b, body = lit "gherkin" ++ b) ->
  first_at fence (body ++ fence ++ post) (length body) ->
  extract_gherkin_code (pre ++ fence ++ tag ++ body ++ fence ++ post)
  = Ok (strip body).
Proof.
  intros [_ Hpre] Htag Hbody%str_find_Some.
  unfold extract_gherkin_code.
  destruct Htag as [-> | [-> Hno]].
  - erewrite search_code_block_at; [| done |].
    2: { rewrite match_at_code_block, startswith_app.
         change (drop 3 (fence ++ ?x)) with x. cbn zeta.
         rewrite startswith_app. change (drop 7 (lit "gherkin" ++ ?x)) with x.
         unfold block_rest. by rewrite Hbody. }
    unfold group1. cbn [m_group1 snd].
    replace (pre ++ fence ++ lit "gherkin" ++ body ++ fence ++ post)
      with ((pre ++ fence ++ lit "gherkin") ++ body ++ fence ++ post)
      by (by rewrite <- !app_assoc).
    replace (length pre + 3 + 7)%nat with (length (pre ++ fence ++ lit "gherkin"))
      by (rewrite !length_app; simpl; lia).
    by rewrite slice_middle.
  - cbn [app] in *.
    erewrite search_code_block_at; [| done |].
    2: { rewrite match_at_code_block, startswith_app.
         change (drop 3 (fence ++ ?x)) with x. cbn zeta.
         destruct (startswith (lit "gherkin") (body ++ fence ++ post)) eqn:Hg.
         - apply gherkin_prefix_body, startswith_iff in Hg. by destruct Hno.
         - unfold block_rest. by rewrite Hbody. }
    unfold group1. cbn [m_group1 snd].
    replace (pre ++ fence ++ body ++ fence ++ post)
      with ((pre ++ fence) ++ body ++ fence ++ post)
      by (by rewrite <- !app_assoc).
    replace (length pre + 3)%nat with (length (pre ++ fence))
      by (rewrite !length_app; simpl; lia).
    by rewrite slice_middle.
Qed.

Lemma first_at_le (sub s : str) (i : nat) : first_at sub s i -> (i <= length s)%nat.
Proof. intros [H _]. by apply occurs_at_drop in H as [? _]. Qed.

Lemma contains_first (sub s : str) : contains sub s -> exists i, first_at sub s i.
Proof.
  intros H. destruct (str_find sub s) as [i|] eqn:Hf.
  - exists i. by apply str_find_Some.
  - by apply str_find_None in Hf.
Qed.

(** No fence starts inside the tag. *)
Lemma fence_after_gherkin (u : str) (k : nat) :
  occurs_at fence (lit "gherkin" ++ u) k ->
  exists k', k = (7 + k')%nat /\ occurs_at fence u k'.
Proof.
  change (lit "gherkin" ++ u)
    with (103 :: 104 :: 101 :: 114 :: 107 :: 105 :: 110 :: u).
  do 7 (destruct k as [|k]; [by intros H%occurs_at_0 | rewrite occurs_at_S]).
  intros H. by exists k.
Qed.

Lemma first_at_parts (sub s : str) (i : nat) :
  first_at sub s i ->
  first_at sub (take i s ++ sub ++ drop (i + length sub) s) (length (take i s)).
Proof.
  intros H. rewrite <- (first_at_split _ _ _ H).
  rewrite length_take_le by (by eapply first_at_le). done.
Qed.

(** Every response with a fenced block splits around its first block. *)
Lemma first_block_exists (s : str) :
  has_fenced_block s ->
  exists pre tag body post,
    s = pre ++ fence ++ tag ++ body ++ fence ++ post
    /\ first_at fence s (length pre)
    /\ (tag = lit "gherkin" \/ (tag = [] /\ ~ exists b, body = lit "gherkin" ++ b))
    /\ first_at fence (body ++ fence ++ post) (length body).
Proof.
  intros (a & b0 & c & Hs).
  assert (contains fence s) as [i Hi]%contains_first.
  { exists (length a). rewrite Hs. apply occurs_at_app. }
  assert (i <= length a)%nat as Hia.
  { apply Hi. rewrite Hs. apply occurs_at_app. }
  pose proof (first_at_le _ _ _ Hi) as Hil.
  pose proof (first_at_split _ _ _ Hi) as Hsplit. rewrite length_fence in Hsplit.
  set (t := drop (i + 3) s) in *.
  assert (contains fence t) as Ht.
  { exists (length a + length b0 - i)%nat. apply occurs_at_drop.
    assert (occurs_at fence s (length (a ++ fence ++ b0))) as [Hl Hsw]%occurs_at_drop.
    { exists (a ++ fence ++ b0), c. by rewrite Hs, <- !app_assoc. }
    rewrite !length_app, length_fence in Hl, Hsw. unfold t.
    rewrite length_drop, drop_drop. split; [lia|].
    replace (i + 3 + (length a + length b0 - i))%nat
      with (length a + (3 + length b0))%nat by lia. done. }
  destruct (startswith (lit "gherkin") t) eqn:Hg.
  - apply startswith_inv in Hg. change (length (lit "gherkin")) with 7%nat in Hg.
    set (u := drop 7 t) in *.
    assert (contains fence u) as [j Hj]%contains_first.
    { destruct Ht as [k Hk]. rewrite Hg in Hk.
      apply fence_after_gherkin in Hk as (k' & _ & Hk'). by exists k'. }
    exists (take i s), (lit "gherkin"), (take j u), (drop (j + length fence) u).
    split_and!; [| by rewrite length_take_le | by left | by apply first_at_parts].
    by rewrite <- (first_at_split _ _ _ Hj), <- Hg.
  - destruct (contains_first _ _ Ht) as [j Hj].
    exists (take i s), [], (take j t), (drop (j + length fence) t).
    cbn [app].
    split_and!; [| by rewrite length_take_le | right | by apply first_at_parts].
    + by rewrite <- (first_at_split _ _ _ Hj).
    + split; [done|]. intros [b Hb].
      rewrite (first_at_split _ _ _ Hj), Hb, <- app_assoc, startswith_app in Hg.
      done.
Qed.

(** ** Trimming *)

Lemma drop_while_head {A} (p : A -> bool) (l : list A) (c : A) :
  head (drop_while p l) = Some c -> p c = false.
Proof.
  induction l as [|x l IH]; simpl; [done|].
  destruct (p x) eqn:Hx; [done|]. simpl. by intros [= <-].
Qed.

Lemma drop_while_app_stop {A} (p : A -> bool) (x : list A) (c : A) (y : list A) :
  p c = false -> drop_while p (x ++ c :: y) = drop_while p x ++ c :: y.
Proof.
  intros Hc. induction x as [|a x IH]; simpl.
  - by rewrite Hc.
  - by destruct (p a).
Qed.

Lemma drop_while_all {A} (p : A -> bool) (l : list A) :
  forallb p l = true -> drop_while p l = [].
Proof.
  induction l as [|x l IH]; simpl; [done|].
  intros [-> H]%andb_prop. by apply IH.
Qed.

Lemma rstrip_app_keep (a : str) (c : N) (b : str) :
  isspace c = false -> rstrip (a ++ c :: b) = a ++ c :: rstrip b.
Proof.
  intros Hc. unfold rstrip.
  rewrite reverse_app, reverse_cons, <- app_assoc. cbn [app].
  rewrite drop_while_app_stop by done.
  by rewrite reverse_app, reverse_cons, reverse_involutive, <- app_assoc.
Qed.

Lemma rstrip_last (s : str) (c : N) :
  head (reverse (rstrip s)) = Some c -> isspace c = false.
Proof. unfold rstrip. rewrite reverse_involutive. apply drop_while_head. Qed.

Lemma strip_is_trimmed (s : str) : is_trimmed (strip s) = true.
Proof.
  unfold strip, is_trimmed, lstrip.
  destruct (drop_while isspace s) as [|c t] eqn:Hd; [done|].
  assert (isspace c = false) as Hc by (apply (drop_while_head _ s); by rewrite Hd).
  assert (head (rstrip (c :: t)) = Some c) as ->.
  { change (c :: t) with ([] ++ c :: t). by rewrite rstrip_app_keep. }
  destruct (head (reverse (rstrip (c :: t)))) as [b|] eqn:Hb; [|done].
  apply rstrip_last in Hb. by rewrite Hc, Hb.
Qed.

(** What [is_trimmed] says, in words: the first and the last character, if
    any, are not white space. *)
Lemma is_trimmed_ends (s : str) :
  is_trimmed s = true <->
  (forall c t, s = c :: t -> isspace c = false)
  /\ (forall t c, s = t ++ [c] -> isspace c = false).
Proof.
  unfold is_trimmed. split.
  - intros H. split.
    + intros c t ->. cbn [head] in H.
      destruct (reverse (c :: t)) as [|b r] eqn:Hr.
      * apply (f_equal length) in Hr. by rewrite length_reverse in Hr.
      * by apply andb_prop in H as [?%negb_true_iff _].
    + intros t c ->. rewrite reverse_app in H. simpl in H.
      destruct (head (t ++ [c])) eqn:Hh; [|by destruct t].
      by apply andb_prop in H as [_ ?%negb_true_iff].
  - intros [Hh Hl]. destruct s as [|c t]; [done|]. cbn [head].
    destruct (reverse (c :: t)) as [|b r] eqn:Hr; [done|]. cbn [head].
    rewrite (Hh c t eq_refl), (Hl (reverse r) b); [done|].
    by rewrite <- (reverse_involutive (c :: t)), Hr, reverse_cons.
Qed.

(** ** The extractor returns *)

Lemma match_at_code_block_group (pos : nat) (s : str) (e : nat) g :
  match_at false code_block_re pos s = Some (e, g) -> exists sp, g = Some sp.
Proof.
  rewrite match_at_code_block.
  destruct (startswith fence s); [|done]. cbn zeta.
  destruct (startswith (lit "gherkin") (drop 3 s)).
  - destruct (block_rest (pos + 3 + 7) (drop 7 (drop 3 s))) as [res|] eqn:Hb.
    + apply block_rest_Some in Hb as (j & _ & ->). intros [= <- <-]. eauto.
    + intros (j & _ & [= -> ->])%block_rest_Some. eauto.
  - intros (j & _ & [= -> ->])%block_rest_Some. eauto.
Qed.

Lemma extract_returns_strip (response : str) :
  exists text, extract_gherkin_code response = Ok (strip text).
Proof.
  unfold extract_gherkin_code.
  destruct (search false code_block_re response) as [m|] eqn:Hs.
  - apply search_from_Some in Hs as (a & s' & _ & _ & Hm).
    apply match_at_code_block_group in Hm as [[b e] Hg].
    unfold group1. rewrite Hg. eauto.
  - unfold str_contains, str_index.
    destruct (str_find Feature response); eauto.
Qed.

(** *** [strip] returns the trimmed core, and nothing else is one *)

Lemma drop_while_split {A} (p : A -> bool) (l : list A) :
  exists x, l = x ++ drop_while p l /\ forallb p x = true.
Proof.
  induction l as [|a l (x & IH & Hx)]; [by exists []|]. simpl.
  destruct (p a) eqn:Ha; [|by exists []]. exists (a :: x). simpl.
  rewrite Ha, Hx. split; [by f_equal | done].
Qed.

Lemma forallb_reverse {A} (p : A -> bool) (l : list A) :
  forallb p l = true -> forallb p (reverse l) = true.
Proof.
  rewrite !forallb_forall. intros H x Hx. apply H.
  rewrite <- list_elem_of_In in *. by rewrite elem_of_reverse in Hx.
Qed.

Lemma forallb_app_true {A} (p : A -> bool) (a b : list A) :
  forallb p a = true -> forallb p b = true -> forallb p (a ++ b) = true.
Proof. intros Ha Hb. by rewrite forallb_app, Ha, Hb. Qed.

Lemma rstrip_blank (s : str) : forallb isspace s = true -> rstrip s = [].
Proof.
  intros H. unfold rstrip. by rewrite drop_while_all by (by apply forallb_reverse).
Qed.

Lemma trimmed_core_strip (s : str) : trimmed_core s (strip s).
Proof.
  unfold strip, lstrip.
  destruct (drop_while_split isspace s) as (x & Hs & Hx).
  destruct (drop_while_split isspace (reverse (drop_while isspace s)))
    as (y & Ht & Hy).
  exists x, (reverse y). split_and!.
  - rewrite Hs at 1. f_equal. unfold rstrip.
    rewrite <- reverse_app, <- Ht. by rewrite reverse_involutive.
  - done.
  - by apply forallb_reverse.
  - apply strip_is_trimmed.
Qed.

Lemma trimmed_core_unique (s out : str) : trimmed_core s out -> out = strip s.
Proof.
  intros (left & right & -> & Hl & Hr & Htrim).
  destruct out as [|c t].
  - cbn [app]. unfold strip, lstrip.
    by rewrite drop_while_all by (by apply forallb_app_true).
  - apply is_trimmed_ends in Htrim as [Hh Hlast].
    unfold strip, lstrip. cbn [app].
    rewrite drop_while_app_stop by (by eapply Hh).
    rewrite drop_while_all by done. cbn [app].
    destruct (exists_last (l := c :: t)) as (t' & b & Heq); [done|].
    change (c :: t ++ right) with ((c :: t) ++ right).
    rewrite Heq, <- app_assoc. cbn [app].
    rewrite rstrip_app_keep by (by eapply Hlast).
    by rewrite rstrip_blank.
Qed.

Ltac literals :=
  repeat match goal with
         | |- context [lit ?s] =>
             let v := eval vm_compute in (lit s) in change (lit s) with v
         end.

Lemma not_in_tests (c : N) (l : str) :
  forallb (fun x => negb (x =? c)) l = true -> c ∉ l.
Proof.
  rewrite forallb_forall. intros H Hin%list_elem_of_In. apply H in Hin.
  by rewrite N.eqb_refl in Hin.
Qed.

Lemma no_fence_no_block (s : str) : str_find fence s = None -> ~ has_fenced_block s.
Proof.
  intros Hf (a & body & b & ->). apply str_find_None in Hf. apply Hf.
  exists (length a). apply occurs_at_app.
Qed.

Lemma strip_Feature (post : str) : strip (Feature ++ post) = Feature ++ rstrip post.
Proof.
  unfold strip. change (lstrip (Feature ++ post)) with (Feature ++ post).
  change (Feature ++ post) with (lit "Feature" ++ 58 :: post).
  by rewrite rstrip_app_keep.
Qed.

(** C1. A response that contains a block delimited by triple backticks
    has a first block: the text [pre] before the first fence, the tag
    [gherkin] if the block's text starts with it, the [body] up to the next
    fence, and the text [post] after that fence. The extractor returns the
    body without the white space at its two ends, and without the fences
    and the tag, whatever [pre] and [post] are. *)
Theorem fenced_block_extracted (response : str) :
  has_fenced_block response ->
  (exists pre tag body post out,
     first_block response pre tag body post /\ trimmed_core body out)
  /\ forall pre tag body post out,
       first_block response pre tag body post ->
       trimmed_core body out ->
       extract_gherkin_code response = Ok out.
Proof.
  intros Hblock. split.
  - apply first_block_exists in Hblock
      as (pre & tag & body & post & Heq & Hpre & Htag & Hbody).
    exists pre, tag, body, post, (strip body).
    split; [done | apply trimmed_core_strip].
  - intros pre tag body post out (-> & Hpre & Htag & Hbody) ->%trimmed_core_unique.
    by apply extract_first_block.
Qed.

Lemma fenced_block_extracted_witness :
  extract_gherkin_code (lit "Sure: ```gherkin Feature: Login ``` Bye ```x```")
  = Ok (lit "Feature: Login").
Proof.
  assert (has_fenced_block (lit "Sure: ```gherkin Feature: Login ``` Bye ```x```"))
    as Hblock.
  { exists (lit "Sure: "), (lit "gherkin Feature: Login "), (lit " Bye ```x```").
    reflexivity. }
  apply (proj2 (fenced_block_extracted _ Hblock)
           (lit "Sure: ") (lit "gherkin") (lit " Feature: Login ")
           (lit " Bye ```x```") (lit "Feature: Login")).
  - split_and!; [reflexivity | apply str_find_Some; reflexivity | by left
                | apply str_find_Some; reflexivity].
  - exists (lit " "), (lit " "). split_and!; reflexivity.
Defined.

(** C2. A response without a fenced block that contains [Feature:] splits
    at the first occurrence of [Feature:] into the text [pre] before it and
    the text [post] after it. The extractor returns the part from
    [Feature:] on without the white space at its end: the result starts
    with [Feature:] itself and nothing of [pre] is left. *)
Theorem feature_extracted (response : str) :
  ~ has_fenced_block response ->
  contains Feature response ->
  (exists pre post out,
     response = pre ++ Feature ++ post
     /\ first_at Feature response (length pre)
     /\ trimmed_core (Feature ++ post) out)
  /\ forall pre post out,
       response = pre ++ Feature ++ post ->
       first_at Feature response (length pre) ->
       trimmed_core (Feature ++ post) out ->
       extract_gherkin_code response = Ok out
       /\ exists rest, out = Feature ++ rest.
Proof.
  intros Hno Hc. split.
  - apply contains_first in Hc as [i Hi].
    exists (take i response), (drop (i + length Feature) response),
      (strip (Feature ++ drop (i + length Feature) response)).
    pose proof (first_at_le _ _ _ Hi).
    split_and!; [by apply first_at_split | by rewrite length_take_le
                | apply trimmed_core_strip].
  - intros pre post out Heq Hfirst ->%trimmed_core_unique. split.
    + unfold extract_gherkin_code. rewrite (no_block_search _ Hno).
      apply str_find_Some in Hfirst. unfold str_contains, str_index.
      rewrite Hfirst. do 2 f_equal. rewrite Heq at 1.
      by rewrite drop_app_length.
    + exists (rstrip post). apply strip_Feature.
Qed.

Lemma feature_extracted_witness :
  extract_gherkin_code (lit "Sure! Feature: Login  ") = Ok (lit "Feature: Login")
  /\ exists rest, lit "Feature: Login" = Feature ++ rest.
Proof.
  assert (~ has_fenced_block (lit "Sure! Feature: Login  ")) as Hno.
  { apply no_fence_no_block. reflexivity. }
  assert (contains Feature (lit "Sure! Feature: Login  ")) as Hc.
  { exists 6%nat, (lit "Sure! "), (lit " Login  "). split; reflexivity. }
  apply (proj2 (feature_extracted _ Hno Hc)
           (lit "Sure! ") (lit " Login  ") (lit "Feature: Login")).
  - reflexivity.
  - apply str_find_Some. reflexivity.
  - exists [], (lit "  "). split_and!; reflexivity.
Defined.

(** C10. On every input string the extractor returns a string: none of its
    paths raises, and the string returned has no white space at its start
    or at its end. *)
Theorem extract_total_trimmed (response : str) :
  exists out, extract_gherkin_code response = Ok out /\ is_trimmed out = true.
Proof.
  destruct (extract_returns_strip response) as [text ->].
  exists (strip text). split; [done | apply strip_is_trimmed].
Qed.

(** ** The preamble patterns *)

Lemma lstrip_space_count (s : str) : drop (space_count s) s = lstrip s.
Proof.
  induction s as [|x s IH]; [done|]. unfold lstrip. simpl.
  by destruct (isspace x).
Qed.

Lemma take_space_count (s : str) : forallb isspace (take (space_count s) s) = true.
Proof.
  induction s as [|x s IH]; [done|]. simpl.
  destruct (isspace x) eqn:Hx; [|done]. simpl. by rewrite Hx.
Qed.

Lemma space_count_app (ws : str) (c : N) (s : str) :
  forallb isspace ws = true -> isspace c = false ->
  space_count (ws ++ c :: s) = length ws.
Proof.
  intros Hws Hc. induction ws as [|x ws IH]; simpl.
  - by rewrite Hc.
  - simpl in Hws. apply andb_prop in Hws as [-> Hws]. by rewrite IH.
Qed.

(** The greedy [\s*] in front of something that cannot start with white
    space takes all the leading white space. *)
Lemma star_greedy_space (k : cont) (s : str) (pos : nat) g :
  (forall pos' x s' g', isspace x = true -> k pos' (x :: s') g' = None) ->
  star_greedy CSpace k pos s g = k (pos + space_count s)%nat (lstrip s) g.
Proof.
  intros Hk. revert pos; induction s as [|x s IH]; intros pos.
  - simpl. by rewrite Nat.add_0_r.
  - cbn [star_greedy in_cset space_count]. unfold lstrip. cbn [drop_while].
    destruct (isspace x) eqn:Hx.
    + rewrite IH, Nat.add_succ_r. cbn [Nat.add]. unfold lstrip.
      destruct (k (S (pos + space_count s)) (drop_while isspace s) g); [done|].
      by apply Hk.
    + by rewrite Nat.add_0_r.
Qed.

(** The lazy [.*?] in front of the newline stops at the first newline. *)
Lemma star_lazy_newline (k : cont) (s : str) (pos : nat) g :
  (forall pos' s' g', k pos' s' g' = run true (Chr 10) pos' s' g' accept) ->
  star_lazy CDot k pos s g
  = match str_find newline s with
    | Some j => Some ((pos + j + 1)%nat, g)
    | None => None
    end.
Proof.
  intros Hk. unfold newline. revert pos; induction s as [|x s IH]; intros pos.
  - cbn [star_lazy]. by rewrite Hk.
  - cbn [star_lazy str_find startswith in_cset]. rewrite Hk. cbn [run].
    change (chr_match true 10 x) with (10 =? x). rewrite andb_true_r.
    destruct (N.eqb_spec 10 x) as [<- | Hne].
    + unfold accept. arith_eq.
    + destruct (N.eqb_spec x 10) as [-> | _]; [done|]. cbn [negb].
      rewrite IH. destruct (str_find [10] s); [|done]. simpl. arith_eq.
Qed.

Lemma prefix_match_solid (phrase : str) (x : N) (s : str) :
  solid phrase -> isspace x = true -> prefix_match true phrase (x :: s) = false.
Proof.
  destruct phrase as [|p phrase]; [done|]. simpl. intros H Hx. by rewrite H.
Qed.

Lemma match_at_preamble (phrase s : str) (pos : nat) :
  solid phrase ->
  match_at true (preamble_re phrase) pos s
  = if Nat.eqb pos 0
    then match preamble_end phrase s with
         | Some e => Some (e, None)
         | None => None
         end
    else None.
Proof.
  intros Hsolid. unfold match_at, preamble_re.
  change (re_seq ?l) with (foldr Cat Eps l). cbn [foldr].
  cbn [run]. destruct (Nat.eqb_spec pos 0) as [-> | _]; [|done].
  rewrite star_greedy_space.
  - rewrite run_re_str. unfold preamble_end.
    destruct (prefix_match true phrase (lstrip s)); [|done].
    erewrite star_lazy_newline; [|done].
    destruct (str_find newline (drop (length phrase) (lstrip s))); [|done].
    cbn [Nat.add]. done.
  - intros pos' x s' g' Hx. by rewrite run_re_str, prefix_match_solid.
Qed.

(** A preamble pattern never matches the empty string. *)
Lemma preamble_match_nonempty (phrase s : str) (pos e : nat) g :
  solid phrase ->
  match_at true (preamble_re phrase) pos s = Some (e, g) -> (pos < e)%nat.
Proof.
  intros Hsolid. rewrite match_at_preamble by done.
  destruct (Nat.eqb_spec pos 0) as [-> | _]; [|done].
  unfold preamble_end. destruct (prefix_match _ _ _); [|done].
  destruct (str_find _ _); [|done]. intros [= <- _]. lia.
Qed.

Lemma preamble_end_pos (phrase s : str) (e : nat) :
  preamble_end phrase s = Some e -> (0 < e)%nat.
Proof.
  unfold preamble_end. destruct (prefix_match _ _ _); [|done].
  destruct (str_find _ _); [|done]. intros [= <-]. lia.
Qed.

(** Past the start of the string an anchored pattern replaces nothing. *)
Lemma sub_from_anchored ic r (s : str) (skip pos : nat) :
  (forall p s', p <> 0%nat -> match_at ic r p s' = None) ->
  pos <> 0%nat ->
  sub_from ic r [] skip pos s = drop skip s.
Proof.
  intros Hr. revert skip pos; induction s as [|x s IH]; intros skip pos Hpos.
  - destruct skip; simpl; [|done]. by rewrite Hr.
  - destruct skip as [|skip]; cbn [sub_from drop].
    + rewrite Hr by done. by rewrite IH, drop_0.
    + by rewrite IH.
Qed.

(** [re.sub] with a preamble pattern: the leading line, if there is one,
    is cut off. *)
Lemma sub_preamble (phrase s : str) :
  solid phrase ->
  sub true (preamble_re phrase) [] s
  = match preamble_end phrase s with
    | Some e => drop e s
    | None => s
    end.
Proof.
  intros Hsolid. unfold sub.
  assert (forall p s', p <> 0%nat -> match_at true (preamble_re phrase) p s' = None)
    as Hanch.
  { intros p s' Hp. rewrite match_at_preamble by done.
    by destruct (Nat.eqb_spec p 0). }
  destruct s as [|x s]; cbn [sub_from]; rewrite match_at_preamble by done;
    cbn [Nat.eqb].
  - destruct (preamble_end phrase []) as [e|] eqn:He; [|done].
    by rewrite drop_nil.
  - destruct (preamble_end phrase (x :: s)) as [e|] eqn:He.
    + apply preamble_end_pos in He. destruct (Nat.eqb_spec e 0); [lia|].
      rewrite sub_from_anchored by done. destruct e; [lia|].
      cbn [app drop]. f_equal. lia.
    + by rewrite sub_from_anchored, drop_0.
Qed.

(** *** The matcher's comparison under [re.IGNORECASE] is comparison up to
    case *)

Ltac tolower_tests x :=
  unfold tolower;
  destruct (N.leb_spec 65 x), (N.leb_spec x 90); cbn [andb];
  try lia; destruct (N.eqb_spec x 304); try lia;
  destruct (N.eqb_spec x 8490); lia.

Lemma tolower_of_cased (p : N) :
  iscased p = true ->
  (65 <= p <= 90 /\ tolower p = p + 32) \/ (97 <= p <= 122 /\ tolower p = p).
Proof.
  unfold iscased. rewrite orb_true_iff, !andb_true_iff, !N.leb_le.
  intros H. tolower_tests p.
Qed.

Lemma iscased_false (p : N) :
  iscased p = false -> ~ (65 <= p <= 90) /\ ~ (97 <= p <= 122).
Proof.
  unfold iscased. rewrite orb_false_iff, !andb_false_iff, !N.leb_gt. lia.
Qed.

Lemma tolower_eq_lower (x lo : N) :
  97 <= lo <= 122 ->
  tolower x = lo
  <-> x = lo \/ x + 32 = lo \/ (lo = 105 /\ x = 304) \/ (lo = 107 /\ x = 8490).
Proof. intros H. tolower_tests x. Qed.

Lemma tolower_eq_305 (x : N) : tolower x = 305 <-> x = 305.
Proof. tolower_tests x. Qed.

Lemma tolower_eq_383 (x : N) : tolower x = 383 <-> x = 383.
Proof. tolower_tests x. Qed.

Lemma chr_match_same_letter (p x : N) :
  chr_match true p x = true <-> same_letter p x.
Proof.
  unfold chr_match, same_letter. destruct (iscased p) eqn:Hc; cbn [andb].
  - apply tolower_of_cased in Hc. unfold ignorecase_fixes.
    destruct (N.eqb_spec (tolower p) 105) as [Hi|Hi];
      [|destruct (N.eqb_spec (tolower p) 115) as [Hs|Hs]];
      cbn [existsb]; rewrite !orb_true_iff, !N.eqb_eq, ?tolower_eq_305,
        ?tolower_eq_383, tolower_eq_lower by lia; lia.
  - apply iscased_false in Hc. rewrite N.eqb_eq. lia.
Qed.

Lemma prefix_match_take (phrase t : str) :
  prefix_match true phrase t = true ->
  same_ignoring_case phrase (take (length phrase) t).
Proof.
  revert t; induction phrase as [|p phrase IH]; intros [|x t]; simpl; try done.
  - intros _. constructor.
  - intros _. constructor.
  - intros [Hp Ht]%andb_prop.
    constructor; [by apply chr_match_same_letter | by apply IH].
Qed.

Lemma prefix_match_app (phrase m rest : str) :
  same_ignoring_case phrase m -> prefix_match true phrase (m ++ rest) = true.
Proof.
  induction 1 as [|p x phrase m Hpx _ IH]; simpl.
  - by destruct rest.
  - apply chr_match_same_letter in Hpx. by rewrite Hpx, IH.
Qed.

Lemma first_at_not_in (c : N) (u : str) (j : nat) :
  first_at [c] u j -> c ∉ take j u.
Proof.
  intros [_ Hmin] (i & Hi)%list_elem_of_lookup.
  pose proof (lookup_lt_Some _ _ _ Hi) as Hlt. rewrite length_take in Hlt.
  rewrite lookup_take_lt in Hi by lia.
  assert (occurs_at [c] u i) as Ho%Hmin; [|lia].
  exists (take i u), (drop (S i) u). split.
  - cbn [app]. by rewrite (take_drop_middle _ _ _ Hi).
  - rewrite length_take. lia.
Qed.

Lemma first_at_app_not_in (c : N) (a b : str) :
  c ∉ a -> first_at [c] (a ++ [c] ++ b) (length a).
Proof.
  intros Hc. split; [apply occurs_at_app|].
  intros j (a' & b' & Heq & <-).
  destruct (decide (length a <= length a')%nat) as [|Hlt]; [done|].
  exfalso. apply Hc.
  apply (f_equal (fun l => l !! length a')) in Heq.
  rewrite lookup_app_l in Heq by lia.
  rewrite lookup_app_r, Nat.sub_diag in Heq by lia. simpl in Heq.
  apply list_elem_of_lookup. eauto.
Qed.

(** A recognised leading line is one in the sense of the specification. *)
Lemma preamble_end_Some (phrase s : str) (e : nat) :
  preamble_end phrase s = Some e -> leading_line phrase s (drop e s).
Proof.
  unfold preamble_end. cbn zeta.
  destruct (prefix_match true phrase (lstrip s)) eqn:Hp; [|done].
  destruct (str_find newline (drop (length phrase) (lstrip s))) as [j|] eqn:Hf; [|done].
  intros [= <-]. apply str_find_Some in Hf.
  pose proof (prefix_match_take _ _ Hp) as Hm.
  set (t := lstrip s) in *. set (u := drop (length phrase) t) in *.
  exists (take (space_count s) s), (take (length phrase) t), (take j u).
  split_and!.
  - replace (drop (space_count s + length phrase + j + 1) s)
      with (drop (j + length newline) u).
    + rewrite <- (first_at_split _ _ _ Hf). unfold u. rewrite take_drop.
      unfold t. by rewrite <- lstrip_space_count, take_drop.
    + unfold u, t. rewrite <- lstrip_space_count, !drop_drop.
      f_equal. simpl. lia.
  - apply take_space_count.
  - done.
  - by apply first_at_not_in.
Qed.

(** A leading line in the sense of the specification is recognised, and
    ends where the specification says. *)
Lemma leading_line_end (phrase s tail : str) :
  solid phrase -> leading_line phrase s tail ->
  exists e, preamble_end phrase s = Some e /\ drop e s = tail.
Proof.
  intros Hsolid (ws & m & rest & -> & Hws & Hm & Hrest).
  destruct Hm as [|p x phrase m Hpx Hm]; [done|]. simpl in Hsolid.
  assert (isspace x = false) as Hx.
  { apply chr_match_same_letter in Hpx.
    destruct (isspace x) eqn:Hx; [|done]. by rewrite Hsolid in Hpx. }
  unfold preamble_end, lstrip. cbn zeta.
  assert (drop_while isspace (ws ++ (x :: m) ++ rest ++ newline ++ tail)
          = (x :: m) ++ rest ++ newline ++ tail) as ->.
  { cbn [app]. rewrite drop_while_app_stop by done.
    by rewrite drop_while_all. }
  rewrite prefix_match_app by (by constructor).
  assert (length phrase = length m) as Hlen by (by eapply Forall2_length).
  replace (length (p :: phrase)) with (length (x :: m)) by (simpl; lia).
  rewrite drop_app_length.
  pose proof (first_at_app_not_in 10 rest tail Hrest) as Hf.
  apply str_find_Some in Hf. unfold newline. rewrite Hf.
  eexists. split; [done|].
  cbn [app]. rewrite space_count_app by done.
  assert (ws ++ x :: m ++ rest ++ 10 :: tail
          = (ws ++ x :: m ++ rest ++ [10]) ++ tail) as ->.
  { rewrite <- !app_assoc. cbn [app]. by rewrite <- !app_assoc. }
  replace (length ws + length (x :: m) + length rest + 1)%nat
    with (length (ws ++ x :: m ++ rest ++ [10])).
  - by rewrite drop_app_length.
  - rewrite !length_app. simpl. rewrite !length_app. simpl. lia.
Qed.

(** [re.sub] with a preamble pattern does what the specification says. *)
Lemma sub_preamble_stripped (phrase s : str) :
  solid phrase -> stripped_of phrase s (sub true (preamble_re phrase) [] s).
Proof.
  intros Hsolid. rewrite sub_preamble by done.
  destruct (preamble_end phrase s) as [e|] eqn:He.
  - left. by apply preamble_end_Some.
  - right. split; [|done]. intros tail Hl.
    apply leading_line_end in Hl as (e & He' & _); [|done]. congruence.
Qed.

(** ... and nothing else does. *)
Lemma stripped_of_unique (phrase s r : str) :
  solid phrase -> stripped_of phrase s r -> r = sub true (preamble_re phrase) [] s.
Proof.
  intros Hsolid H. rewrite sub_preamble by done. destruct H as [Hl | [Hno ->]].
  - by apply leading_line_end in Hl as (e & -> & <-).
  - destruct (preamble_end phrase s) as [e|] eqn:He; [|done].
    apply preamble_end_Some in He. by apply Hno in He.
Qed.

(** ** White space and letters *)

Lemma isspace_range (x : N) :
  isspace x = true -> x <= 32 \/ x = 133 \/ 160 <= x.
Proof.
  unfold isspace.
  rewrite !orb_true_iff, !andb_true_iff, !N.leb_le, !N.eqb_eq. lia.
Qed.

Lemma tolower_cases (x : N) :
  (65 <= x <= 90 /\ tolower x = x + 32)
  \/ tolower x = 105 \/ tolower x = 107 \/ tolower x = x.
Proof.
  unfold tolower.
  destruct (N.leb_spec 65 x), (N.leb_spec x 90); simpl; try lia;
    destruct (N.eqb_spec x 304); try lia; destruct (N.eqb_spec x 8490); lia.
Qed.

Lemma iscased_range (p : N) :
  iscased p = true -> 97 <= tolower p <= 122.
Proof.
  unfold iscased, tolower.
  rewrite !orb_true_iff, !andb_true_iff, !N.leb_le.
  destruct (N.leb_spec 65 p), (N.leb_spec p 90); simpl; try lia;
    destruct (N.eqb_spec p 304); try lia; destruct (N.eqb_spec p 8490); lia.
Qed.

(** White space matches no letter other than, possibly, i, k and s. *)
Lemma space_never_matches (p x : N) :
  iscased p = true ->
  tolower p <> 105 -> tolower p <> 107 -> tolower p <> 115 ->
  isspace x = true -> chr_match true p x = false.
Proof.
  intros Hp Hi Hk Hs Hx%isspace_range. unfold chr_match. rewrite Hp.
  cbn [andb]. unfold ignorecase_fixes.
  destruct (N.eqb_spec (tolower p) 105); [done|].
  destruct (N.eqb_spec (tolower p) 115); [done|].
  cbn [existsb]. rewrite orb_false_r. apply N.eqb_neq.
  apply iscased_range in Hp. pose proof (tolower_cases x). lia.
Qed.

Lemma solid_Certainly : solid (lit "Certainly!").
Proof. intros x. by apply space_never_matches. Qed.

Lemma solid_Here_is : solid (lit "Here is").
Proof. intros x. by apply space_never_matches. Qed.

Lemma solid_Below_is : solid (lit "Below is").
Proof. intros x. by apply space_never_matches. Qed.

Lemma no_Feature_find (s : str) : ~ contains Feature s -> str_contains Feature s = false.
Proof. intros H%str_find_None. unfold str_contains. by rewrite H. Qed.

(** C7. For a response with no fenced block and no [Feature:], the
    extractor strips a leading line matching [Certainly!...], then one
    matching [Here is...], then one matching [Below is...], each phrase up
    to the case of its letters and each line up to and including its
    newline, and returns what remains without the white space at its two
    ends. In particular a response that begins with the line
    [Here is the Gherkin code:] loses exactly that line to the first two
    steps. *)
Theorem preambles_stripped (response : str) :
  ~ has_fenced_block response ->
  ~ contains Feature response ->
  (exists r1 r2 r3 out,
     stripped_of (lit "Certainly!") response r1
     /\ stripped_of (lit "Here is") r1 r2
     /\ stripped_of (lit "Below is") r2 r3
     /\ trimmed_core r3 out)
  /\ (forall r1 r2 r3 out,
        stripped_of (lit "Certainly!") response r1 ->
        stripped_of (lit "Here is") r1 r2 ->
        stripped_of (lit "Below is") r2 r3 ->
        trimmed_core r3 out ->
        extract_gherkin_code response = Ok out)
  /\ forall rest,
       response = lit "Here is the Gherkin code:" ++ newline ++ rest ->
       stripped_of (lit "Certainly!") response response
       /\ stripped_of (lit "Here is") response rest.
Proof.
  intros Hblock Hfeat. split_and!.
  - exists (sub true certainly_re [] response),
      (sub true here_is_re [] (sub true certainly_re [] response)),
      (sub true below_is_re []
         (sub true here_is_re [] (sub true certainly_re [] response))),
      (strip (sub true below_is_re []
                (sub true here_is_re [] (sub true certainly_re [] response)))).
    split_and!; [apply sub_preamble_stripped, solid_Certainly
                | apply sub_preamble_stripped, solid_Here_is
                | apply sub_preamble_stripped, solid_Below_is
                | apply trimmed_core_strip].
  - intros r1 r2 r3 out H1 H2 H3 ->%trimmed_core_unique.
    apply stripped_of_unique in H1 as ->; [|apply solid_Certainly].
    apply stripped_of_unique in H2 as ->; [|apply solid_Here_is].
    apply stripped_of_unique in H3 as ->; [|apply solid_Below_is].
    unfold extract_gherkin_code.
    by rewrite (no_block_search _ Hblock), (no_Feature_find _ Hfeat).
  - intros rest ->. split.
    + pose proof (sub_preamble_stripped (lit "Certainly!")
                    (lit "Here is the Gherkin code:" ++ newline ++ rest)
                    solid_Certainly) as H.
      rewrite sub_preamble in H by apply solid_Certainly.
      exact H.
    + pose proof (sub_preamble_stripped (lit "Here is")
                    (lit "Here is the Gherkin code:" ++ newline ++ rest)
                    solid_Here_is) as H.
      rewrite sub_preamble in H by apply solid_Here_is.
      exact H.
Qed.

Lemma preambles_stripped_witness :
  extract_gherkin_code
    (lit "  hERE Is the code:" ++ newline ++ lit "BELOW is it" ++ newline
     ++ lit " Scenario: x " ++ newline)
  = Ok (lit "Scenario: x").
Proof.
  assert (~ has_fenced_block
            (lit "  hERE Is the code:" ++ newline ++ lit "BELOW is it" ++ newline
             ++ lit " Scenario: x " ++ newline)) as Hno.
  { apply no_fence_no_block. reflexivity. }
  assert (~ contains Feature
            (lit "  hERE Is the code:" ++ newline ++ lit "BELOW is it" ++ newline
             ++ lit " Scenario: x " ++ newline)) as Hfeat.
  { apply str_find_None. reflexivity. }
  apply (proj1 (proj2 (preambles_stripped _ Hno Hfeat))
           (lit "  hERE Is the code:" ++ newline ++ lit "BELOW is it" ++ newline
            ++ lit " Scenario: x " ++ newline)
           (lit "BELOW is it" ++ newline ++ lit " Scenario: x " ++ newline)
           (lit " Scenario: x " ++ newline)
           (lit "Scenario: x")).
  - right. split; [|reflexivity]. intros tail Hl.
    apply leading_line_end in Hl as (e & He & _);
      [discriminate He | apply solid_Certainly].
  - left. exists (lit "  "), (lit "hERE Is"), (lit " the code:").
    split_and!; [reflexivity | reflexivity | | apply not_in_tests; reflexivity].
    unfold same_ignoring_case. literals.
    repeat (constructor; [unfold same_letter; lia|]). constructor.
  - left. exists [], (lit "BELOW is"), (lit " it").
    split_and!; [reflexivity | reflexivity | | apply not_in_tests; reflexivity].
    unfold same_ignoring_case. literals.
    repeat (constructor; [unfold same_letter; lia|]). constructor.
  - exists (lit " "), (lit " " ++ newline). split_and!; reflexivity.
Defined.

(** ** The prompt builder *)

Section PromptProperties.
Variable isprintable : N -> bool.

Lemma py_get_obj (members : list (str * json)) (key : str) (default : json) :
  py_get (JObj members) key default = Ok (get_or members key default).
Proof. done. Qed.

Lemma step_line_obj (idx : nat) (call : list (str * json)) :
  step_line isprintable (idx, JObj call)
  = Ok (default_step_line isprintable (idx + 1) call).
Proof. done. Qed.

(** The comprehension numbers the steps by their position. *)
Lemma comprehension_step_lines (calls : list (list (str * json))) (start : nat) :
  comprehension (step_line isprintable) (enumerate_from start (JObj <$> calls))
  = Ok (imap (fun i call => default_step_line isprintable (start + i + 1) call) calls).
Proof.
  revert start; induction calls as [|call calls IH]; intros start; [done|].
  cbn [fmap list_fmap enumerate_from comprehension imap].
  rewrite step_line_obj. cbn [result_bind]. rewrite IH. cbn [result_bind].
  rewrite Nat.add_0_r. do 2 f_equal. apply imap_ext. intros i c _. simpl.
  do 2 f_equal. lia.
Qed.



End PromptProperties.




(** ** Paths *)
















(** ** The pipeline *)




Section PipelineProperties.
Variable isprintable : N -> bool.
Variable cfg : config.
Variable d : disk.
Variable openai_client : completion_client.







(** The walker runs the loop body on each file of the platform, with
    [base_dir / 'gherkin' / platform] as the output directory. *)
Lemma walker_runs_body (base_dir : path) (platform : str) (dir : platform_dir)
    (json_file : input_file) (rest : list input_file) (w : world) :
  platform_path d platform = Some dir ->
  mkdir dir = Ok tt ->
  json_files dir = json_file :: rest ->
  generate_gherkin_for_platform isprintable cfg d base_dir platform openai_client w
  = io_bind
      (for_each (json_file :: rest)
         (process_file isprintable cfg d platform
            (joinpath (joinpath base_dir (lit "gherkin")) platform) openai_client))
      (fun _ => print (Processed (length (json_file :: rest)) platform)) w.
Proof.
  intros Hdir Hmk Hfiles. unfold generate_gherkin_for_platform.
  rewrite Hdir, Hfiles. unfold io_bind at 1, lift. by rewrite Hmk.
Qed.

(** C4. When one of the four configuration values is absent, the script
    prints the two lines of guidance and exits with status 1; by then it
    has sent no request and written no file. *)
Theorem missing_configuration_exits (base_dir : path) (w : world) :
  AZURE_OPENAI_API_KEY cfg = None \/ AZURE_OPENAI_ENDPOINT cfg = None
  \/ AZURE_OPENAI_API_VERSION cfg = None \/ AZURE_OPENAI_API_MODEL cfg = None ->
  main isprintable cfg d base_dir openai_client w
  = (1%Z,
     World (files w)
       (console w
        ++ [StartingBanner; BaseDirectory base_dir; MissingConfiguration; CopyEnvExample])
       (requests w)).
Proof.
  intros Hmissing.
  assert (all_set [AZURE_OPENAI_API_KEY cfg; AZURE_OPENAI_ENDPOINT cfg;
                   AZURE_OPENAI_API_VERSION cfg; AZURE_OPENAI_API_MODEL cfg]
          = false) as Hall.
  { unfold all_set. cbn [forallb].
    destruct Hmissing as [-> | [-> | [-> | ->]]];
      by rewrite ?andb_false_r. }
  unfold main, script, io_bind, print, exit. rewrite Hall.
  cbn [negb files console requests]. by rewrite <- !app_assoc.
Qed.

End PipelineProperties.





Lemma missing_configuration_exits_witness :
  main no_table sample_config_no_key sample_disk [lit "base"] fenced_service
    empty_world
  = (1%Z,
     World ∅
       [StartingBanner; BaseDirectory [lit "base"]; MissingConfiguration;
        CopyEnvExample]
       []).
Proof.
  apply (missing_configuration_exits no_table sample_config_no_key sample_disk
           fenced_service [lit "base"] empty_world).
  left. reflexivity.
Defined.

(** ** Runs on concrete inputs *)

(** The end-to-end run of the specification: one test case for the platform
    [azure], answered with a fenced block. *)
Example end_to_end_run :
  main no_table sample_config sample_disk [lit "base"] fenced_service empty_world
  = (0%Z,
     World
       (<[[lit "base"; lit "gherkin"; lit "azure"; lit "TC001.gherkin"]
          := lit "Feature: Login" ++ newline ++ lit "..."]> ∅)
       [StartingBanner; BaseDirectory [lit "base"]; ClientInitialized;
        ProcessingPlatform (lit "common"); PlatformNotFound (lit "common");
        ProcessingPlatform (lit "azure"); Processing (lit "TC001");
        Created (lit "azure")
          [lit "base"; lit "gherkin"; lit "azure"; lit "TC001.gherkin"];
        Processed 1 (lit "azure");
        ProcessingPlatform (lit "aws"); PlatformNotFound (lit "aws");
        Rule; GenerationComplete; Rule]
       [completion_request sample_config sample_prompt]).
Proof. vm_compute. reflexivity. Qed.

(** The three substitutions run in the order of the source: a
    [Certainly!] line that follows a [Here is] line stays. *)
Example preambles_in_order :
  extract_gherkin_code
    (lit "Certainly! " ++ newline ++ lit "here is the code:" ++ newline ++ lit "Scenario: a")
  = Ok (lit "Scenario: a")
  /\ extract_gherkin_code
       (lit "Here is the code:" ++ newline ++ lit "Certainly!" ++ newline ++ lit "Scenario: a")
     = Ok (lit "Certainly!" ++ newline ++ lit "Scenario: a").
Proof. split; reflexivity. Qed.

(** A leading line without a newline after it is not stripped. *)
Example preamble_without_newline :
  extract_gherkin_code (lit "Here is nothing") = Ok (lit "Here is nothing").
Proof. reflexivity. Qed.

(** A fence that is never closed is no block: the text from [Feature:] on
    is returned, fence and all before it dropped. *)
Example unclosed_fence :
  extract_gherkin_code (lit "```gherkin Feature: Login ") = Ok (lit "Feature: Login").
Proof. reflexivity. Qed.

(** A content of white space only is extracted to the empty string, which
    the walker treats as a failure. *)
Example blank_content_skipped :
  process_file no_table sample_config sample_disk (lit "azure")
    [lit "base"; lit "gherkin"; lit "azure"] (fun _ _ => Ok [Some (lit "  ")])
    sample_file empty_world
  = (Return tt,
     World ∅ [Processing (lit "TC001"); FailedToGenerate (lit "TC001")]
       [completion_request sample_config sample_prompt]).
Proof. reflexivity. Qed.

(** A record whose [api_calls] is [null] makes the prompt builder raise;
    the client turns that into [None] before any request is sent. *)
Example null_api_calls :
  build_prompt no_table (JObj [(lit "api_calls", JNull)]) = Raise TypeError
  /\ generate_gherkin_with_llm no_table sample_config
       (JObj [(lit "api_calls", JNull)]) fenced_service empty_world
     = (Return None, World ∅ [ErrorGenerating TypeError] []).
Proof. split; reflexivity. Qed.

(** * Further properties *)

(** ** The extractor returns a part of the response *)

Lemma part_of_refl (s : str) : part_of s s.
Proof. exists [], []. by rewrite app_nil_r. Qed.

Lemma part_of_trans (a b c : str) : part_of a b -> part_of b c -> part_of a c.
Proof.
  intros (x & y & ->) (x' & y' & ->). exists (x' ++ x), (y ++ y').
  by rewrite <- !app_assoc.
Qed.

Lemma part_of_drop (n : nat) (s : str) : part_of (drop n s) s.
Proof. exists (take n s), []. by rewrite app_nil_r, take_drop. Qed.

Lemma part_of_take (n : nat) (s : str) : part_of (take n s) s.
Proof. exists [], (drop n s). simpl. by rewrite take_drop. Qed.

Lemma drop_while_suffix {A} (p : A -> bool) (l : list A) :
  exists x, l = x ++ drop_while p l.
Proof.
  induction l as [|a l [x IH]]; [by exists []|]. simpl.
  destruct (p a); [|by exists []]. exists (a :: x). simpl. by f_equal.
Qed.

Lemma part_of_strip (s : str) : part_of (strip s) s.
Proof.
  unfold strip. apply part_of_trans with (lstrip s).
  - unfold rstrip. destruct (drop_while_suffix isspace (reverse (lstrip s))) as [x Hx].
    exists [], (reverse x). simpl.
    rewrite <- reverse_app, <- Hx. by rewrite reverse_involutive.
  - destruct (drop_while_suffix isspace s) as [x Hx]. exists x, [].
    by rewrite app_nil_r.
Qed.

Lemma part_of_sub_preamble (phrase s : str) :
  solid phrase -> part_of (sub true (preamble_re phrase) [] s) s.
Proof.
  intros H. rewrite sub_preamble by done.
  destruct (preamble_end phrase s); [apply part_of_drop | apply part_of_refl].
Qed.

(** X1. Whatever the response, the text the extractor returns is a
    contiguous part of it: the extractor cuts, it never adds or rearranges
    text. *)
Theorem extract_part_of_response (response : str) :
  exists out, extract_gherkin_code response = Ok out /\ part_of out response.
Proof.
  unfold extract_gherkin_code.
  destruct (search false code_block_re response) as [m|] eqn:Hs.
  - apply search_from_Some in Hs as (a & s' & _ & _ & Hm).
    apply match_at_code_block_group in Hm as [[b e] Hg].
    unfold group1. rewrite Hg. eexists. split; [done|].
    eapply part_of_trans; [apply part_of_strip|]. unfold slice.
    eapply part_of_trans; [apply part_of_take | apply part_of_drop].
  - unfold str_contains, str_index. destruct (str_find Feature response) as [i|].
    + eexists. split; [done|].
      eapply part_of_trans; [apply part_of_strip | apply part_of_drop].
    + eexists. split; [done|].
      eapply part_of_trans; [apply part_of_strip|].
      eapply part_of_trans; [apply part_of_sub_preamble, solid_Below_is|].
      eapply part_of_trans; [apply part_of_sub_preamble, solid_Here_is|].
      apply part_of_sub_preamble, solid_Certainly.
Qed.

Lemma contains_part_of (sub x s : str) :
  part_of x s -> contains sub x -> contains sub s.
Proof.
  intros (a & b & ->) (i & u & v & -> & _).
  exists (length (a ++ u)), (a ++ u), (v ++ b). split; [|done].
  by rewrite <- !app_assoc.
Qed.

Lemma first_at_before (sub a b : str) :
  sub <> [] -> first_at sub (a ++ sub ++ b) (length a) -> ~ contains sub a.
Proof.
  intros Hne [_ Hmin] (i & u & v & -> & <-).
  assert (occurs_at sub ((u ++ sub ++ v) ++ sub ++ b) (length u)) as Ho%Hmin.
  { exists u, (v ++ sub ++ b). by rewrite <- !app_assoc. }
  rewrite !length_app in Ho. destruct sub; [done|]. simpl in Ho. lia.
Qed.

(** X2. When the response has a fenced block, the text returned contains no
    triple backtick: the fences are gone and none is left inside. *)
Theorem extracted_block_has_no_fence (response : str) :
  has_fenced_block response ->
  exists out, extract_gherkin_code response = Ok out /\ ~ contains fence out.
Proof.
  intros (pre & tag & body & post & -> & Hpre & Htag & Hbody)%first_block_exists.
  exists (strip body). split; [by apply extract_first_block|].
  intros Hc. apply (first_at_before fence body post); [done | done |].
  by apply (contains_part_of _ _ _ (part_of_strip body)).
Qed.

Lemma extracted_block_has_no_fence_witness :
  exists out,
    extract_gherkin_code (lit "``` Feature: a ``b`` ``` tail ```")
    = Ok out /\ ~ contains fence out.
Proof.
  apply (extracted_block_has_no_fence (lit "``` Feature: a ``b`` ``` tail ```")).
  exists [], (lit " Feature: a ``b`` "), (lit " tail ```"). reflexivity.
Defined.

(** ** Fixed points and degenerate responses of the extractor *)

Lemma strip_trimmed (s : str) : is_trimmed s = true -> strip s = s.
Proof.
  intros [Hh Hl]%is_trimmed_ends. destruct s as [|c t]; [done|].
  unfold strip, lstrip. cbn [drop_while]. rewrite (Hh c t eq_refl).
  destruct (exists_last (l := c :: t)) as (t' & b & Heq); [done|].
  rewrite Heq, rstrip_app_keep by (by eapply Hl). done.
Qed.

(** X3. A response that already starts with [Feature:], has no fenced
    block and no white space at either end comes back unchanged. *)
Theorem feature_text_unchanged (rest : str) :
  ~ has_fenced_block (Feature ++ rest) ->
  is_trimmed (Feature ++ rest) = true ->
  extract_gherkin_code (Feature ++ rest) = Ok (Feature ++ rest).
Proof.
  intros Hno Htrim. unfold extract_gherkin_code.
  rewrite (no_block_search _ Hno). unfold str_contains, str_index.
  assert (str_find Feature (Feature ++ rest) = Some 0%nat) as ->.
  { apply str_find_Some. split; [by exists [], rest | lia]. }
  by rewrite drop_0, strip_trimmed.
Qed.

Lemma feature_text_unchanged_witness :
  extract_gherkin_code (Feature ++ lit " Login" ++ newline ++ lit "  Scenario: ok")
  = Ok (Feature ++ lit " Login" ++ newline ++ lit "  Scenario: ok").
Proof.
  apply (feature_text_unchanged (lit " Login" ++ newline ++ lit "  Scenario: ok")).
  - apply no_fence_no_block. reflexivity.
  - reflexivity.
Defined.

Lemma contains_head (c : N) (sub s : str) : contains (c :: sub) s -> c ∈ s.
Proof.
  intros (i & a & b & -> & _). apply list_elem_of_In, in_or_app. right. by left.
Qed.

Lemma blank_no_char (c : N) (s : str) :
  isspace c = false -> forallb isspace s = true -> c ∉ s.
Proof.
  intros Hc Hs Hin%list_elem_of_In. rewrite forallb_forall in Hs.
  apply Hs in Hin. congruence.
Qed.

Lemma preamble_end_blank (phrase s : str) :
  solid phrase -> forallb isspace s = true -> preamble_end phrase s = None.
Proof.
  intros Hsolid Hs. unfold preamble_end, lstrip. rewrite drop_while_all by done.
  by destruct phrase.
Qed.

(** X4. A response made of white space only, the empty response included,
    is extracted to the empty string. *)
Theorem blank_response_empty (response : str) :
  forallb isspace response = true ->
  extract_gherkin_code response = Ok [].
Proof.
  intros Hblank. unfold extract_gherkin_code.
  rewrite no_block_search.
  2: { intros (a & body & b & ->).
       apply (blank_no_char 96 _ eq_refl Hblank).
       apply (contains_head 96 [96; 96]). exists (length a). apply occurs_at_app. }
  rewrite no_Feature_find.
  2: { intros Hc. apply (blank_no_char 70 _ eq_refl Hblank).
       by apply contains_head in Hc. }
  unfold certainly_re, here_is_re, below_is_re.
  rewrite (sub_preamble (lit "Certainly!")) by apply solid_Certainly.
  rewrite preamble_end_blank by (done || apply solid_Certainly).
  rewrite (sub_preamble (lit "Here is")) by apply solid_Here_is.
  rewrite preamble_end_blank by (done || apply solid_Here_is).
  rewrite (sub_preamble (lit "Below is")) by apply solid_Below_is.
  rewrite preamble_end_blank by (done || apply solid_Below_is).
  unfold strip, lstrip. by rewrite drop_while_all.
Qed.

Lemma blank_response_empty_witness :
  extract_gherkin_code (lit "  " ++ newline ++ [0xA0; 9]) = Ok [].
Proof.
  apply (blank_response_empty (lit "  " ++ newline ++ [0xA0; 9])). reflexivity.
Defined.

Lemma solid_preambles : Forall solid preambles.
Proof.
  repeat constructor;
    [apply solid_Certainly | apply solid_Here_is | apply solid_Below_is].
Qed.

(** X5. A response with no fenced block, no [Feature:] and no leading line
    matching one of the three phrases is returned trimmed and otherwise
    untouched: there is no further clean-up. *)
Theorem plain_text_trimmed (response : str) :
  ~ has_fenced_block response ->
  ~ contains Feature response ->
  Forall (fun phrase => forall tail, ~ leading_line phrase response tail) preambles ->
  extract_gherkin_code response = Ok (strip response).
Proof.
  intros Hblock Hfeat Hlines. unfold extract_gherkin_code.
  rewrite (no_block_search _ Hblock), (no_Feature_find _ Hfeat).
  assert (forall phrase, solid phrase ->
            (forall tail, ~ leading_line phrase response tail) ->
            sub true (preamble_re phrase) [] response = response) as Hsub.
  { intros phrase Hsolid Hno. rewrite sub_preamble by done.
    destruct (preamble_end phrase response) as [e|] eqn:He; [|done].
    apply preamble_end_Some in He. by apply Hno in He. }
  unfold preambles in Hlines.
  inversion_clear Hlines as [|? ? H1 Hlines1].
  inversion_clear Hlines1 as [|? ? H2 Hlines2].
  inversion_clear Hlines2 as [|? ? H3 _].
  unfold certainly_re, here_is_re, below_is_re.
  rewrite !Hsub; [done | apply solid_Below_is | done | apply solid_Here_is | done
                 | apply solid_Certainly | done].
Qed.

Lemma plain_text_trimmed_witness :
  extract_gherkin_code (lit " Scenario: here is Below is " ++ newline)
  = Ok (strip (lit " Scenario: here is Below is " ++ newline)).
Proof.
  apply (plain_text_trimmed (lit " Scenario: here is Below is " ++ newline)).
  - apply no_fence_no_block. reflexivity.
  - apply str_find_None. reflexivity.
  - unfold preambles.
    repeat (apply List.Forall_cons; [|]); [| | | apply List.Forall_nil];
      intros tail Hl;
      (apply leading_line_end in Hl as (e & He & _);
       [discriminate He
       | first [apply solid_Certainly | apply solid_Here_is | apply solid_Below_is]]).
Defined.

(** ** When the prompt builder raises *)

Section PromptErrors.
Variable isprintable : N -> bool.

Lemma step_line_not_object (idx : nat) (v : json) :
  is_object v = false -> step_line isprintable (idx, v) = Raise AttributeError.
Proof. by destruct v. Qed.

Lemma comprehension_step_Ok (items : list json) (start : nat) (lines : list str) :
  comprehension (step_line isprintable) (enumerate_from start items) = Ok lines ->
  exists calls, items = JObj <$> calls.
Proof.
  revert start lines; induction items as [|v items IH]; intros start lines.
  - by exists [].
  - cbn [enumerate_from comprehension].
    destruct (is_object v) eqn:Hv.
    + destruct v as [| | | | |call]; try done. rewrite step_line_obj.
      cbn [result_bind].
      destruct (comprehension _ (enumerate_from (S start) items)) as [ls|] eqn:Hc;
        [|done].
      apply IH in Hc as [calls ->]. intros _. by exists (call :: calls).
    + by rewrite step_line_not_object.
Qed.

Lemma comprehension_step_Raise (calls : list (list (str * json))) (v : json)
    (rest : list json) (start : nat) :
  is_object v = false ->
  comprehension (step_line isprintable)
    (enumerate_from start ((JObj <$> calls) ++ v :: rest))
  = Raise AttributeError.
Proof.
  intros Hv. revert start; induction calls as [|call calls IH]; intros start.
  - cbn [fmap list_fmap app enumerate_from comprehension].
    by rewrite step_line_not_object.
  - cbn [fmap list_fmap app enumerate_from comprehension].
    rewrite step_line_obj. cbn [result_bind].
    change (list_fmap _ _ JObj calls) with (JObj <$> calls). by rewrite IH.
Qed.

(** X6. The prompt builder returns a prompt exactly for a JSON object
    whose [api_calls], taken as [[]] when absent, iterates over objects
    only: a list of objects, or an empty string or object. *)
Theorem build_prompt_succeeds_iff (test_data : json) :
  (exists prompt, build_prompt isprintable test_data = Ok prompt)
  <-> exists members calls,
        test_data = JObj members
        /\ py_iter (get_or members (lit "api_calls") (JArr [])) = Ok (JObj <$> calls).
Proof.
  split.
  - intros [prompt H]. destruct test_data as [| | | | |members]; try done.
    unfold build_prompt in H. rewrite !py_get_obj in H. cbn [result_bind] in H.
    destruct (py_iter _) as [items|] eqn:Hit; [|done]. cbn [result_bind] in H.
    destruct (comprehension _ _) as [lines|] eqn:Hc; [|done].
    apply comprehension_step_Ok in Hc as [calls ->]. by exists members, calls.
  - intros (members & calls & -> & Hit). unfold build_prompt.
    rewrite !py_get_obj. cbn [result_bind]. rewrite Hit. cbn [result_bind].
    unfold enumerate. rewrite comprehension_step_lines. cbn [result_bind].
    by eexists.
Qed.

(** X7. Which exception the prompt builder raises: [AttributeError] for
    test data that is not an object, [TypeError] when [api_calls] is
    [null], a boolean or a number, and [AttributeError] when [api_calls]
    iterates to something that is not an object (an array with such an
    element, a non-empty string, a non-empty object). *)
Theorem build_prompt_raises (test_data : json) (e : exn) :
  (is_object test_data = false /\ e = AttributeError)
  \/ (exists members,
        test_data = JObj members
        /\ is_scalar (get_or members (lit "api_calls") (JArr [])) = true
        /\ e = TypeError)
  \/ (exists members calls v rest,
        test_data = JObj members
        /\ py_iter (get_or members (lit "api_calls") (JArr []))
           = Ok ((JObj <$> calls) ++ v :: rest)
        /\ is_object v = false
        /\ e = AttributeError) ->
  build_prompt isprintable test_data = Raise e.
Proof.
  intros [[Hobj ->] | [(members & -> & Hsc & ->)
                      | (members & calls & v & rest & -> & Hit & Hv & ->)]].
  - by destruct test_data.
  - unfold build_prompt. rewrite !py_get_obj. cbn [result_bind].
    by destruct (get_or members _ _).
  - unfold build_prompt. rewrite !py_get_obj. cbn [result_bind].
    rewrite Hit. cbn [result_bind]. unfold enumerate.
    by rewrite comprehension_step_Raise.
Qed.

End PromptErrors.

Lemma build_prompt_raises_witness :
  build_prompt no_table
    (JObj [(lit "api_calls", JArr [JObj []; JStr (lit "login")])])
  = Raise AttributeError.
Proof.
  apply (build_prompt_raises no_table
           (JObj [(lit "api_calls", JArr [JObj []; JStr (lit "login")])])
           AttributeError).
  right. right.
  exists [(lit "api_calls", JArr [JObj []; JStr (lit "login")])],
    [[]], (JStr (lit "login")), [].
  repeat split; reflexivity.
Defined.

(** ** What the completion client does to the world *)

Section ClientEffects.
Variable isprintable : N -> bool.
Variable cfg : config.
Variable openai_client : completion_client.

Lemma generate_shape (test_data : json) (w : world) :
  exists r lines reqs,
    generate_gherkin_with_llm isprintable cfg test_data openai_client w
    = (Return r, World (files w) (console w ++ lines) (requests w ++ reqs))
    /\ (length reqs <= 1)%nat
    /\ match r with
       | Some out => is_trimmed out = true /\ lines = []
       | None => exists e, lines = [ErrorGenerating e]
       end.
Proof.
  unfold generate_gherkin_with_llm, try_except, io_bind, lift, create, print, io_ret.
  destruct (build_prompt isprintable test_data) as [prompt|e].
  - cbn [files requests console].
    destruct (openai_client _ _) as [choices|e].
    + destruct (first_content choices) as [content|e].
      * destruct (extract_returns_strip (or_fallback content)) as [text ->].
        exists (Some (strip text)), [], [completion_request cfg prompt].
        cbn [files requests console]. rewrite app_nil_r.
        split_and!; [done | simpl; lia | apply strip_is_trimmed | done].
      * exists None, [ErrorGenerating e], [completion_request cfg prompt].
        split_and!; [done | simpl; lia | by eexists].
    + exists None, [ErrorGenerating e], [completion_request cfg prompt].
      split_and!; [done | simpl; lia | by eexists].
  - exists None, [ErrorGenerating e], []. cbn [files requests console].
    rewrite app_nil_r. split_and!; [done | simpl; lia | by eexists].
Qed.

(** X8. Whatever the test data and the service do, the completion client
    returns: it raises nothing, touches no file, sends at most one request,
    and either returns a trimmed text and prints nothing, or returns [None]
    and prints one error line. *)
Theorem generate_effects (test_data : json) (w : world) :
  exists r lines reqs,
    generate_gherkin_with_llm isprintable cfg test_data openai_client w
    = (Return r, World (files w) (console w ++ lines) (requests w ++ reqs))
    /\ (length reqs <= 1)%nat
    /\ match r with
       | Some out => is_trimmed out = true /\ lines = []
       | None => exists e, lines = [ErrorGenerating e]
       end.
Proof. apply generate_shape. Qed.

(** X9. When the prompt cannot be built, the client sends no request: it
    logs the exception and returns [None]. *)
Theorem no_request_without_prompt (test_data : json) (e : exn) (w : world) :
  build_prompt isprintable test_data = Raise e ->
  generate_gherkin_with_llm isprintable cfg test_data openai_client w
  = (Return None, World (files w) (console w ++ [ErrorGenerating e]) (requests w)).
Proof.
  intros H.
  unfold generate_gherkin_with_llm, try_except, io_bind, lift, print, io_ret.
  by rewrite H.
Qed.

(** X10. The client returns a text exactly when the prompt could be built
    and the service answered with at least one choice; the text is then
    the extraction of the first choice's content (or of the fallback), the
    other choices are ignored, one request has been sent and nothing has
    been printed. *)
Theorem generate_success_iff (test_data : json) (out : str) (w w' : world) :
  generate_gherkin_with_llm isprintable cfg test_data openai_client w
  = (Return (Some out), w')
  <-> exists prompt content others,
        build_prompt isprintable test_data = Ok prompt
        /\ openai_client (length (requests w)) (completion_request cfg prompt)
           = Ok (content :: others)
        /\ extract_gherkin_code (or_fallback content) = Ok out
        /\ w' = World (files w) (console w)
                  (requests w ++ [completion_request cfg prompt]).
Proof.
  unfold generate_gherkin_with_llm, try_except, io_bind, lift, create, print, io_ret.
  split.
  - destruct (build_prompt isprintable test_data) as [prompt|e]; [|done].
    cbn [files requests console].
    destruct (openai_client _ _) as [[|content others]|e] eqn:Hc; try done.
    cbn [first_content].
    destruct (extract_gherkin_code (or_fallback content)) as [text|e] eqn:He;
      [|done].
    intros [= <- <-]. by exists prompt, content, others.
  - intros (prompt & content & others & -> & Hc & He & ->).
    cbn [files requests console]. rewrite Hc. cbn [first_content]. by rewrite He.
Qed.

End ClientEffects.

Lemma no_request_without_prompt_witness :
  generate_gherkin_with_llm no_table sample_config (JArr []) fenced_service
    empty_world
  = (Return None, World ∅ [ErrorGenerating AttributeError] []).
Proof.
  apply (no_request_without_prompt no_table sample_config fenced_service
           (JArr []) AttributeError empty_world).
  reflexivity.
Defined.

(** ** What the walker does to the world *)

Lemma writes_outputs_refl (d : disk) (gherkin_dir : path) (w w' : world) :
  files w' = files w -> writes_outputs d gherkin_dir w w'.
Proof. intros H p. left. by rewrite H. Qed.

Lemma writes_outputs_trans (d : disk) (gherkin_dir : path) (w1 w2 w3 : world) :
  writes_outputs d gherkin_dir w1 w2 -> writes_outputs d gherkin_dir w2 w3 ->
  writes_outputs d gherkin_dir w1 w3.
Proof.
  intros H12 H23 p. destruct (H23 p) as [Heq | Hout]; [|by right].
  rewrite Heq. apply H12.
Qed.


Section WalkerEffects.
Variable isprintable : N -> bool.
Variable cfg : config.
Variable d : disk.
Variable openai_client : completion_client.

(** One turn of the loop. *)
Lemma process_file_step (platform : str) (gherkin_dir : path)
    (json_file : input_file) (w : world) :
  exists w' lines reqs,
    process_file isprintable cfg d platform gherkin_dir openai_client json_file w
    = (Return tt, w')
    /\ console w' = console w ++ lines
    /\ requests w' = requests w ++ reqs
    /\ (length reqs <= 1)%nat
    /\ writes_outputs d gherkin_dir w w'.
Proof.
  unfold process_file, try_except, io_bind, lift.
  destruct (load json_file) as [test_data|e].
  2: { exists (World (files w)
                 (console w ++ [ErrorProcessing (file_name json_file) e])
                 (requests w)),
         [ErrorProcessing (file_name json_file) e], [].
       cbn [print files console requests]. rewrite app_nil_r.
       split_and!; [done | done | done | simpl; lia
                   | by apply writes_outputs_refl]. }
  destruct (py_get test_data _ _) as [test_code|e].
  2: { exists (World (files w)
                 (console w ++ [ErrorProcessing (file_name json_file) e])
                 (requests w)),
         [ErrorProcessing (file_name json_file) e], [].
       cbn [print files console requests]. rewrite app_nil_r.
       split_and!; [done | done | done | simpl; lia
                   | by apply writes_outputs_refl]. }
  cbn [print].
  destruct (generate_shape isprintable cfg openai_client test_data
              (World (files w)
                 (console w ++ [Processing (py_str isprintable test_code)])
                 (requests w))) as (r & lines & reqs & -> & Hlen & Hr).
  cbn [files console requests]. unfold print.
  destruct r as [[|c s]|].
  - destruct Hr as [_ ->]. eexists _, _, reqs. cbn [files console requests].
    split_and!; [done | by rewrite <- !app_assoc | done | done
                | by apply writes_outputs_refl].
  - destruct Hr as [Htrim ->]. unfold write_file.
    destruct (can_write d _); cbn [files console requests].
    + destruct (encodable d (c :: s)) eqn:Henc; cbn [files console requests].
      * eexists _, _, reqs. cbn [files console requests].
        split_and!; [done | by rewrite <- !app_assoc | done | done |].
        intros p. cbn [files].
        destruct (decide
                    (p = joinpath gherkin_dir
                           (py_str isprintable test_code ++ lit ".gherkin")))
          as [-> | Hne].
        -- right. split; [by eexists|]. exists (c :: s).
           by rewrite lookup_insert_eq.
        -- left. by rewrite lookup_insert_ne.
      * eexists _, _, reqs. cbn [files console requests].
        split_and!; [done | by rewrite <- !app_assoc | done | done |].
        intros p. cbn [files].
        destruct (decide
                    (p = joinpath gherkin_dir
                           (py_str isprintable test_code ++ lit ".gherkin")))
          as [-> | Hne].
        -- right. split; [by eexists|]. exists [].
           by rewrite lookup_insert_eq.
        -- left. by rewrite lookup_insert_ne.
    + eexists _, _, reqs. cbn [files console requests].
      split_and!; [done | by rewrite <- !app_assoc | done | done
                  | by apply writes_outputs_refl].
  - destruct Hr as [e ->]. eexists _, _, reqs. cbn [files console requests].
    split_and!; [done | by rewrite <- !app_assoc | done | done
                | by apply writes_outputs_refl].
Qed.

(** The whole loop. *)
Lemma for_each_steps (platform : str) (gherkin_dir : path)
    (json_files : list input_file) (w : world) :
  exists w' lines reqs,
    for_each json_files
      (process_file isprintable cfg d platform gherkin_dir openai_client) w
    = (Return tt, w')
    /\ console w' = console w ++ lines
    /\ requests w' = requests w ++ reqs
    /\ (length reqs <= length json_files)%nat
    /\ writes_outputs d gherkin_dir w w'.
Proof.
  revert w; induction json_files as [|f fs IH]; intros w.
  - exists w, [], []. rewrite !app_nil_r.
    split_and!; [done | done | done | done | by apply writes_outputs_refl].
  - cbn [for_each]. unfold io_bind.
    destruct (process_file_step platform gherkin_dir f w)
      as (w1 & l1 & r1 & -> & Hc1 & Hr1 & Hn1 & Hw1).
    destruct (IH w1) as (w2 & l2 & r2 & -> & Hc2 & Hr2 & Hn2 & Hw2).
    exists w2, (l1 ++ l2), (r1 ++ r2). split_and!.
    + done.
    + by rewrite Hc2, Hc1, app_assoc.
    + by rewrite Hr2, Hr1, app_assoc.
    + rewrite length_app. simpl. lia.
    + by eapply writes_outputs_trans.
Qed.


(** X12. The loop writes under no path other than
    [gherkin_dir / f"{name}.gherkin"], as pathlib joins the two, which is a
    path outside [gherkin_dir] when [name] starts with a slash; each such
    path it has written holds a text without white space at either end that
    the encoding of the file can encode, which is the empty text when
    writing raised; and it removes no file. *)
Theorem loop_writes_only_outputs (platform : str) (gherkin_dir : path)
    (json_files : list input_file) (w : world) :
  exists w',
    for_each json_files
      (process_file isprintable cfg d platform gherkin_dir openai_client) w
    = (Return tt, w')
    /\ (forall p,
          files w' !! p = files w !! p
          \/ ((exists name, p = joinpath gherkin_dir (name ++ lit ".gherkin"))
              /\ exists text,
                   files w' !! p = Some text
                   /\ is_trimmed text = true /\ encodable d text = true))
    /\ (forall p, is_Some (files w !! p) -> is_Some (files w' !! p)).
Proof.
  destruct (for_each_steps platform gherkin_dir json_files w)
    as (w' & lines & reqs & H & _ & _ & _ & Hw).
  exists w'. split_and!; [done | exact Hw |].
  intros p Hp. destruct (Hw p) as [-> | (_ & text & -> & _)]; [done | by eexists].
Qed.

End WalkerEffects.

(** ** The ways a file fails *)

Section FileFailures.
Variable isprintable : N -> bool.
Variable cfg : config.
Variable d : disk.
Variable openai_client : completion_client.





End FileFailures.





(** ** The walker and the script as a whole *)

Lemma is_set_true (v : option str) :
  (match v with Some (_ :: _) => true | _ => false end) = true <-> is_set v.
Proof.
  split.
  - destruct v as [[|c s]|]; try done. intros _. by exists c, s.
  - by intros (c & s & ->).
Qed.

Lemma all_set_four (a b c e : option str) :
  all_set [a; b; c; e] = true <-> is_set a /\ is_set b /\ is_set c /\ is_set e.
Proof.
  unfold all_set. cbn [forallb]. rewrite !andb_true_iff, !is_set_true. tauto.
Qed.

Section ScriptEffects.
Variable isprintable : N -> bool.
Variable cfg : config.
Variable d : disk.
Variable openai_client : completion_client.
Variable base_dir : path.

Local Abbreviation walker :=
  (fun platform =>
     generate_gherkin_for_platform isprintable cfg d base_dir platform openai_client).

Lemma walker_shape (platform : str) (w : world) :
  exists r w' lines reqs,
    walker platform w = (r, w')
    /\ console w' = console w ++ lines
    /\ requests w' = requests w ++ reqs
    /\ (length reqs <= file_count d platform)%nat
    /\ writes_outputs d (joinpath (joinpath base_dir (lit "gherkin")) platform) w w'
    /\ ((r = Return tt /\ forall e, ~ mkdir_fails d platform e)
        \/ exists e, r = Raised e /\ mkdir_fails d platform e /\ w' = w).
Proof.
  unfold generate_gherkin_for_platform, file_count, mkdir_fails.
  destruct (platform_path d platform) as [dir|] eqn:Hdir.
  - unfold io_bind at 1, lift. destruct (mkdir dir) as [[]|e] eqn:Hmk.
    + assert (forall e, ~ exists dir0, Some dir = Some dir0 /\ mkdir dir0 = Raise e)
        as Hok.
      { intros e (dir0 & [= <-] & He). congruence. }
      destruct (json_files dir) as [|f fs] eqn:Hfiles.
      * eexists _, _, [_], []. unfold print. cbn [files console requests].
        rewrite app_nil_r.
        split_and!; [done | done | done | simpl; lia
                    | by apply writes_outputs_refl | by left].
      * destruct (for_each_steps isprintable cfg d openai_client platform
                    (joinpath (joinpath base_dir (lit "gherkin")) platform)
                    (f :: fs) w)
          as (w1 & lines & reqs & Hloop & Hc & Hr & Hn & Hw).
        unfold io_bind. rewrite Hloop. unfold print.
        eexists _, _, (lines ++ [_]), reqs. cbn [files console requests].
        split_and!; [done | by rewrite Hc, <- app_assoc | done | done | | by left].
        intros p. apply Hw.
    + exists (Raised e), w, [], []. rewrite !app_nil_r.
      split_and!; [done | done | done | simpl; lia
                  | by apply writes_outputs_refl |].
      right. exists e. split_and!; [done | by exists dir | done].
  - eexists _, _, [_], []. unfold print. cbn [files console requests].
    rewrite app_nil_r.
    split_and!; [done | done | done | simpl; lia
                | by apply writes_outputs_refl |].
    left. split; [done|]. by intros e (dir & ? & _).
Qed.



End ScriptEffects.


Section MainEffects.
Variable isprintable : N -> bool.
Variable cfg : config.
Variable d : disk.
Variable service : completion_client.
Variable base_dir : path.

Local Abbreviation platform_step :=
  (fun platform =>
     io_bind (print (ProcessingPlatform platform))
       (fun _ =>
          generate_gherkin_for_platform isprintable cfg d base_dir platform service)).

Lemma writes_gherkin_trans (ps : list str) (w1 w2 w3 : world) :
  writes_gherkin d base_dir ps w1 w2 -> writes_gherkin d base_dir ps w2 w3 ->
  writes_gherkin d base_dir ps w1 w3.
Proof.
  intros H12 H23 p. destruct (H23 p) as [Heq | Hout]; [|by right].
  rewrite Heq. apply H12.
Qed.

Lemma writes_gherkin_cons (x : str) (ps : list str) (w w' : world) :
  writes_gherkin d base_dir ps w w' -> writes_gherkin d base_dir (x :: ps) w w'.
Proof.
  intros H p. destruct (H p) as [Heq | [(platform & name & Hin & ->) Htext]];
    [by left|].
  right. split; [|done]. exists platform, name. split; [|done].
  apply elem_of_cons. by right.
Qed.

Lemma writes_outputs_gherkin (x : str) (ps : list str) (w w' : world) :
  files w = files w'
  \/ writes_outputs d (joinpath (joinpath base_dir (lit "gherkin")) x) w w' ->
  writes_gherkin d base_dir (x :: ps) w w'.
Proof.
  intros [Heq | H] p; [left; by rewrite Heq|].
  destruct (H p) as [Heq | [[name ->] Htext]]; [by left|].
  right. split; [|done]. exists x, name. split; [apply elem_of_cons; by left|].
  done.
Qed.

Lemma platforms_loop (ps : list str) (w : world) :
  exists r w' lines reqs,
    for_each ps platform_step w = (r, w')
    /\ console w' = console w ++ lines
    /\ requests w' = requests w ++ reqs
    /\ (length reqs <= sum_list_with (file_count d) ps)%nat
    /\ writes_gherkin d base_dir ps w w'
    /\ ((r = Return tt /\ forall platform e, platform ∈ ps -> ~ mkdir_fails d platform e)
        \/ exists platform e, r = Raised e /\ platform ∈ ps /\ mkdir_fails d platform e).
Proof.
  revert w; induction ps as [|x ps IH]; intros w.
  - exists (Return tt), w, [], []. rewrite !app_nil_r.
    split_and!; [done | done | done | simpl; lia | by left |].
    left. split; [done|]. by intros platform e Hin%elem_of_nil.
  - cbn [for_each sum_list_with]. unfold io_bind at 1 2. unfold print at 1.
    destruct (walker_shape isprintable cfg d service base_dir x
                (World (files w) (console w ++ [ProcessingPlatform x]) (requests w)))
      as (r1 & w1 & l1 & q1 & -> & Hc1 & Hr1 & Hn1 & Hw1 & Hres1).
    cbn [files console requests] in *.
    destruct Hres1 as [[-> Hok1] | (e & -> & Hfail & ->)].
    + destruct (IH w1) as (r2 & w2 & l2 & q2 & -> & Hc2 & Hr2 & Hn2 & Hw2 & Hres2).
      exists r2, w2, ([ProcessingPlatform x] ++ l1 ++ l2), (q1 ++ q2). split_and!.
      * done.
      * rewrite Hc2, Hc1. by rewrite <- !app_assoc.
      * by rewrite Hr2, Hr1, app_assoc.
      * rewrite length_app. lia.
      * eapply writes_gherkin_trans; [|by apply writes_gherkin_cons].
        apply writes_outputs_gherkin. right. intros p. apply (Hw1 p).
      * destruct Hres2 as [[-> Hok2] | (platform & e & -> & Hin & Hfail)].
        -- left. split; [done|]. intros platform e [-> | Hin]%elem_of_cons; eauto.
        -- right. exists platform, e. split_and!; [done | | done].
           apply elem_of_cons. by right.
    + exists (Raised e), (World (files w) (console w ++ [ProcessingPlatform x])
                          (requests w)), [ProcessingPlatform x], [].
      cbn [files console requests]. rewrite app_nil_r.
      split_and!; [done | done | done | simpl; lia | by left |].
      right. exists x, e. split_and!; [done | | done]. apply elem_of_cons. by left.
Qed.

Lemma script_configured (w : world) :
  all_set [AZURE_OPENAI_API_KEY cfg; AZURE_OPENAI_ENDPOINT cfg;
           AZURE_OPENAI_API_VERSION cfg; AZURE_OPENAI_API_MODEL cfg] = true ->
  script isprintable cfg d base_dir service w
  = io_bind (for_each platforms platform_step)
      (fun _ =>
         io_bind (print Rule)
           (fun _ => io_bind (print GenerationComplete) (fun _ => print Rule)))
      (World (files w)
         (((console w ++ [StartingBanner]) ++ [BaseDirectory base_dir])
          ++ [ClientInitialized])
         (requests w)).
Proof. intros H. unfold script. rewrite H. reflexivity. Qed.

Lemma script_unconfigured (w : world) :
  all_set [AZURE_OPENAI_API_KEY cfg; AZURE_OPENAI_ENDPOINT cfg;
           AZURE_OPENAI_API_VERSION cfg; AZURE_OPENAI_API_MODEL cfg] = false ->
  main isprintable cfg d base_dir service w
  = (1%Z,
     World (files w)
       (console w
        ++ [StartingBanner; BaseDirectory base_dir; MissingConfiguration; CopyEnvExample])
       (requests w)).
Proof.
  intros H. unfold main, script, io_bind, print, exit. rewrite H.
  cbn [negb files console requests]. by rewrite <- !app_assoc.
Qed.

(** The run of a configured script, in the terms of [platforms_loop]. *)
Lemma main_configured (w : world) :
  all_set [AZURE_OPENAI_API_KEY cfg; AZURE_OPENAI_ENDPOINT cfg;
           AZURE_OPENAI_API_VERSION cfg; AZURE_OPENAI_API_MODEL cfg] = true ->
  exists status w' lines reqs,
    main isprintable cfg d base_dir service w = (status, w')
    /\ console w'
       = console w ++ [StartingBanner; BaseDirectory base_dir; ClientInitialized]
         ++ lines
    /\ requests w' = requests w ++ reqs
    /\ (length reqs <= sum_list_with (file_count d) platforms)%nat
    /\ writes_gherkin d base_dir platforms w w'
    /\ ((status = 0%Z
         /\ (exists lines', lines = lines' ++ [Rule; GenerationComplete; Rule])
         /\ forall platform e, platform ∈ platforms -> ~ mkdir_fails d platform e)
        \/ (status = 1%Z
            /\ exists platform e, platform ∈ platforms /\ mkdir_fails d platform e)).
Proof.
  intros Hall. unfold main. rewrite script_configured by done.
  unfold io_bind at 1.
  destruct (platforms_loop platforms
              (World (files w)
                 (((console w ++ [StartingBanner]) ++ [BaseDirectory base_dir])
                  ++ [ClientInitialized])
                 (requests w)))
    as (r & w1 & lines & reqs & -> & Hc & Hr & Hn & Hw & Hres).
  cbn [files console requests] in *.
  destruct Hres as [[-> Hok] | (platform & e & -> & Hin & Hfail)].
  - unfold io_bind, print. cbn [files console requests].
    eexists 0%Z, _, (lines ++ [Rule; GenerationComplete; Rule]), reqs.
    cbn [files console requests]. split_and!; [done | | done | done | | ].
    + rewrite Hc. by rewrite <- !app_assoc.
    + intros p. apply (Hw p).
    + left. split_and!; [done | by exists lines | done].
  - exists 1%Z, w1, lines, reqs.
    split_and!; [done | | done | done | | ].
    + rewrite Hc. by rewrite <- !app_assoc.
    + intros p. apply (Hw p).
    + right. split; [done|]. by exists platform, e.
Qed.

(** X18. The script stops with the two lines of guidance and status 1
    exactly when one of the four configuration values is missing or is the
    empty string: a variable set to nothing counts as not set. *)
Theorem guidance_iff_not_configured (w : world) :
  main isprintable cfg d base_dir service w
  = (1%Z,
     World (files w)
       (console w
        ++ [StartingBanner; BaseDirectory base_dir; MissingConfiguration; CopyEnvExample])
       (requests w))
  <-> ~ (is_set (AZURE_OPENAI_API_KEY cfg) /\ is_set (AZURE_OPENAI_ENDPOINT cfg)
         /\ is_set (AZURE_OPENAI_API_VERSION cfg)
         /\ is_set (AZURE_OPENAI_API_MODEL cfg)).
Proof.
  rewrite <- all_set_four.
  destruct (all_set _) eqn:Hall.
  - split; [|done]. intros Hmain.
    destruct (main_configured w Hall) as (status & w' & lines & reqs & Hrun & Hc & _).
    rewrite Hmain in Hrun. injection Hrun as _ <-. cbn [console] in Hc.
    apply app_inv_head in Hc. discriminate.
  - split; [done|]. intros _. by apply script_unconfigured.
Qed.


(** X20. A configured run sends at most one request for each JSON file of
    the three platforms. Its console starts with the three opening lines,
    and when the status is 0 it ends with the closing banner. *)
Theorem run_sends_at_most_one_request_per_file (w : world) :
  is_set (AZURE_OPENAI_API_KEY cfg) -> is_set (AZURE_OPENAI_ENDPOINT cfg) ->
  is_set (AZURE_OPENAI_API_VERSION cfg) -> is_set (AZURE_OPENAI_API_MODEL cfg) ->
  exists status w' lines reqs,
    main isprintable cfg d base_dir service w = (status, w')
    /\ requests w' = requests w ++ reqs
    /\ (length reqs
        <= file_count d (lit "common") + file_count d (lit "azure")
           + file_count d (lit "aws"))%nat
    /\ console w'
       = console w ++ [StartingBanner; BaseDirectory base_dir; ClientInitialized]
         ++ lines
    /\ (status = 0%Z ->
        exists lines', lines = lines' ++ [Rule; GenerationComplete; Rule]).
Proof.
  intros Hk He Hv Hm.
  assert (all_set [AZURE_OPENAI_API_KEY cfg; AZURE_OPENAI_ENDPOINT cfg;
                   AZURE_OPENAI_API_VERSION cfg; AZURE_OPENAI_API_MODEL cfg]
          = true) as Hall by (by apply all_set_four).
  destruct (main_configured w Hall)
    as (status & w' & lines & reqs & Hrun & Hc & Hr & Hn & _ & Hres).
  exists status, w', lines, reqs. split_and!; [done | done | | done |].
  - cbn [platforms sum_list_with] in Hn. lia.
  - intros ->. by destruct Hres as [(_ & Hl & _) | [? _]].
Qed.

(** X21. Whatever the configuration, the disk and the service, a run
    writes under no path other than
    [base_dir / 'gherkin' / platform / f"{name}.gherkin"], as pathlib joins
    these, for one of the three platforms; every such path it has written
    holds a text without white space at either end that the encoding of
    the file can encode, which is the empty text when writing raised; and
    it removes no file. *)
Theorem run_writes_only_gherkin_files (w : world) :
  exists status w',
    main isprintable cfg d base_dir service w = (status, w')
    /\ (forall p,
          files w' !! p = files w !! p
          \/ ((exists platform name,
                 platform ∈ [lit "common"; lit "azure"; lit "aws"]
                 /\ p = joinpath
                          (joinpath (joinpath base_dir (lit "gherkin")) platform)
                          (name ++ lit ".gherkin"))
              /\ exists text,
                   files w' !! p = Some text
                   /\ is_trimmed text = true /\ encodable d text = true))
    /\ (forall p, is_Some (files w !! p) -> is_Some (files w' !! p)).
Proof.
  assert (exists status w',
            main isprintable cfg d base_dir service w = (status, w')
            /\ writes_gherkin d base_dir platforms w w') as (status & w' & Hrun & Hw).
  { destruct (all_set [AZURE_OPENAI_API_KEY cfg; AZURE_OPENAI_ENDPOINT cfg;
                       AZURE_OPENAI_API_VERSION cfg; AZURE_OPENAI_API_MODEL cfg])
      eqn:Hall.
    - destruct (main_configured w Hall)
        as (status & w' & lines & reqs & Hrun & _ & _ & _ & Hw & _).
      by exists status, w'.
    - rewrite (script_unconfigured w Hall). eexists _, _. split; [done|].
      intros p. by left. }
  exists status, w'. split_and!; [done | exact Hw |].
  intros p Hp. destruct (Hw p) as [-> | (_ & text & -> & _)]; [done | by eexists].
Qed.

End MainEffects.

Lemma sample_config_set :
  is_set (AZURE_OPENAI_API_KEY sample_config)
  /\ is_set (AZURE_OPENAI_ENDPOINT sample_config)
  /\ is_set (AZURE_OPENAI_API_VERSION sample_config)
  /\ is_set (AZURE_OPENAI_API_MODEL sample_config).
Proof. split_and!; eexists _, _; reflexivity. Defined.


Lemma run_sends_at_most_one_request_per_file_witness :
  exists status w' lines reqs,
    main no_table sample_config sample_disk [lit "base"] fenced_service empty_world
    = (status, w')
    /\ requests w' = [] ++ reqs
    /\ (length reqs
        <= file_count sample_disk (lit "common") + file_count sample_disk (lit "azure")
           + file_count sample_disk (lit "aws"))%nat
    /\ console w'
       = [] ++ [StartingBanner; BaseDirectory [lit "base"]; ClientInitialized]
         ++ lines
    /\ (status = 0%Z ->
        exists lines', lines = lines' ++ [Rule; GenerationComplete; Rule]).
Proof.
  exact (run_sends_at_most_one_request_per_file no_table sample_config sample_disk
           fenced_service [lit "base"] empty_world
           (proj1 sample_config_set) (proj1 (proj2 sample_config_set))
           (proj1 (proj2 (proj2 sample_config_set)))
           (proj2 (proj2 (proj2 sample_config_set)))).
Defined.
